(** * gauzilla: the spz decode-and-transfer worker (src/spz.js)

    A shallow embedding of the worker script.  The script is effectful
    JavaScript: it mutates two static fields of [SpzSingleton], talks to a
    WebAssembly engine ([_malloc], [_free], [load_spz], [vf32_ptr]), to the
    network ([fetch]) and to the main thread ([postMessage]), and it uses
    [throw] / [try]-[catch]-[finally].  The embedding threads a [World]
    through a small state-and-exception monad in which the state survives
    a throw, as it does in JavaScript.

    The collaborators that are not part of the script (the engine, the
    network, the host allocator) answer through an [Env] record: one
    scripted answer per call site, so that every fault can be injected.

    Scheduling.  [load] is an [async] function; it is modelled under
    run-to-completion scheduling, in which every promise it awaits
    settles before the next message is served ([worker]).  The singleton,
    the one place where callers meet, is modelled in addition under any
    schedule of calls and settlements ([run_singleton]).

    Not modelled: growth of the engine memory during a call, the aliasing
    of its byte and float views, and what the engine does inside
    [_malloc], [_free] and [load_spz]. *)

From Stdlib Require Import ZArith List String Bool Lia Permutation Arith.
Import ListNotations.

Set Implicit Arguments.

(** ** Values *)

(** An element of a [Float32Array].  The script only moves these values. *)
Definition float32 : Type := Z.

(** The handle of the instantiated engine (what [spzwasm()] resolves to). *)
Definition WasmModule : Type := nat.

(** Identity of a promise object: its index in the promise store. *)
Definition PromiseId : Type := nat.

(** Error values.  [FetchFailed] and [AllocFailed] are the two [Error]
    objects the script itself constructs (lines 76 and 86); the others are
    raised by the platform or by a collaborator. *)
Inductive exn : Type :=
| FetchFailed (status : Z)
| AllocFailed
| RangeError
| DataCloneError
| Foreign (tag : nat).

(** The backing store of a typed array: the engine's linear memory
    ([wasmModule.HEAPF32.buffer]) or an [ArrayBuffer] owned by the host
    runtime, named by its allocation index. *)
Inductive BufId : Type :=
| WasmMemory
| HostBuf (k : nat).

Module Float32Array.
Record t : Type := mk {
  buffer : BufId;
  byteOffset : Z;
  length : nat
}.
End Float32Array.

(** An embind [std::vector<float>] handle: [vf32_ptr] reads its data
    pointer, [size()] its element count. *)
Record FloatVector : Type := mkVec {
  vec_data : Z;
  vec_size : nat
}.

Module Raw.
Record t : Type := mk {
  numPoints : nat;
  shDegree : nat;
  antialiased : bool;
  positions : FloatVector;
  scales : FloatVector;
  rotations : FloatVector;
  alphas : FloatVector;
  colors : FloatVector;
  sh : FloatVector
}.
End Raw.

Module Cloud.
Record t : Type := mk {
  numPoints : nat;
  shDegree : nat;
  antialiased : bool;
  positions : Float32Array.t;
  scales : Float32Array.t;
  rotations : Float32Array.t;
  alphas : Float32Array.t;
  colors : Float32Array.t;
  sh : Float32Array.t
}.
End Cloud.

(** The [gaussianCloud] object of the outbound message (lines 112-122):
    the six array fields are [ArrayBuffer]s. *)
Module Envelope.
Record t : Type := mk {
  numPoints : nat;
  shDegree : nat;
  antialiased : bool;
  positions : BufId;
  scales : BufId;
  rotations : BufId;
  alphas : BufId;
  colors : BufId;
  sh : BufId
}.
End Envelope.

(** ** Collaborators *)

(** How [fetch(url)] settles: rejected, or resolved to a response with
    its [ok] flag, its status and the way [arrayBuffer()] settles in turn.
    Both promises are taken to settle; a request that never does leaves
    [load] waiting at line 74 or 79, having done nothing after the events
    recorded up to there, and has no constructor here. *)
Inductive FetchResult : Type :=
| FetchReject (e : exn)
| FetchResponse (ok : bool) (status : Z) (body : exn + list Byte.byte).

Inductive DecodeResult : Type :=
| DecodeThrow (e : exn)
| DecodeOk (raw : Raw.t) (heap : Z -> float32).

Record Env : Type := mkEnv {
  (** how the promise returned by [spzwasm()] settles *)
  spzwasm : exn + WasmModule;
  (** how [fetch(url)] settles, and the response it resolves to *)
  fetch : string -> FetchResult;
  (** [instance._malloc(size)]: [None] is JavaScript's [null] *)
  _malloc : WasmModule -> Z -> option Z;
  (** byte length of the engine's linear memory *)
  heapBytes : Z;
  (** [instance.load_spz(pointer, length)] on the bytes stored there; on
      success the handle and the float contents of the engine memory *)
  load_spz : WasmModule -> Z -> Z -> list Byte.byte -> DecodeResult;
  (** whether the host can allocate its [k]-th buffer, of [n] floats *)
  hostAlloc : nat -> nat -> bool
}.

(** ** Observable effects *)

Inductive logmsg : Type :=
| LogWasmLoaded
| LogInstance (m : WasmModule)
| LogDataLength (n : nat)
| LogRawNumPoints (n : nat)
| LogCloudNumPoints (n : nat)
| LogDone.

Inductive event : Type :=
| EvSpzwasm
| EvLog (m : logmsg)
| EvError (e : exn)
| EvFetch (url : string)
| EvRevoke (url : string)
| EvMalloc (size : Z) (r : option Z)
| EvHeapSet (data : list Byte.byte) (offset : Z)
| EvLoadSpz (pointer len : Z) (r : option Raw.t)
| EvFree (pointer : Z)
| EvPost (gaussianCloud : Envelope.t) (transfer : list BufId)
| EvUnhandled (e : exn).

(** ** The world *)

Inductive PromiseState : Type :=
| Pending
| Fulfilled (m : WasmModule)
| Rejected (e : exn).

Record World : Type := mkWorld {
  (** [SpzSingleton.instance] *)
  instance : option WasmModule;
  (** [SpzSingleton.loadingPromise] *)
  loadingPromise : option PromiseId;
  (** every promise object created by [getInstance] *)
  promises : list PromiseState;
  (** float contents of the engine memory, by element index *)
  HEAPF32 : Z -> float32;
  (** the [ArrayBuffer]s the host runtime has allocated *)
  hostBuffers : list (list float32);
  (** [load]'s local variable [pointer] *)
  pointer : option Z;
  (** whether the script's [message] listener is registered *)
  listening : bool;
  (** effects so far, oldest first *)
  trace : list event
}.

Definition world0 : World :=
  mkWorld None None [] (fun _ => 0%Z) [] None false [].

Definition set_instance (i : option WasmModule) (w : World) : World :=
  mkWorld i (loadingPromise w) (promises w) (HEAPF32 w) (hostBuffers w)
          (pointer w) (listening w) (trace w).

Definition set_loadingPromise (p : option PromiseId) (w : World) : World :=
  mkWorld (instance w) p (promises w) (HEAPF32 w) (hostBuffers w)
          (pointer w) (listening w) (trace w).

Definition set_promises (ps : list PromiseState) (w : World) : World :=
  mkWorld (instance w) (loadingPromise w) ps (HEAPF32 w) (hostBuffers w)
          (pointer w) (listening w) (trace w).

Definition set_HEAPF32 (h : Z -> float32) (w : World) : World :=
  mkWorld (instance w) (loadingPromise w) (promises w) h (hostBuffers w)
          (pointer w) (listening w) (trace w).

Definition set_hostBuffers (bs : list (list float32)) (w : World) : World :=
  mkWorld (instance w) (loadingPromise w) (promises w) (HEAPF32 w) bs
          (pointer w) (listening w) (trace w).

Definition set_pointer (p : option Z) (w : World) : World :=
  mkWorld (instance w) (loadingPromise w) (promises w) (HEAPF32 w)
          (hostBuffers w) p (listening w) (trace w).

Definition set_listening (b : bool) (w : World) : World :=
  mkWorld (instance w) (loadingPromise w) (promises w) (HEAPF32 w)
          (hostBuffers w) (pointer w) b (trace w).

Definition emit (e : event) (w : World) : World :=
  mkWorld (instance w) (loadingPromise w) (promises w) (HEAPF32 w)
          (hostBuffers w) (pointer w) (listening w) (trace w ++ [e]).

(** ** The monad *)

(** How a piece of code ends: with a value, with a thrown error, or
    suspended at an [await] whose promise never settles. *)
Inductive Res (A : Type) : Type :=
| Val (a : A)
| Throw (e : exn)
| Suspended.

Arguments Throw {A} e.
Arguments Suspended {A}.

Definition M (A : Type) : Type := World -> Res A * World.

Definition ret {A} (a : A) : M A := fun w => (Val a, w).

Definition throw {A} (e : exn) : M A := fun w => (Throw e, w).

Definition bind {A B} (c : M A) (k : A -> M B) : M B :=
  fun w =>
    match c w with
    | (Val a, w1) => k a w1
    | (Throw e, w1) => (Throw e, w1)
    | (Suspended, w1) => (Suspended, w1)
    end.

Declare Scope js_scope.
Delimit Scope js_scope with js.
Notation "x <- c ;; k" := (bind c (fun x => k))
  (at level 61, c at next level, right associativity) : js_scope.
Notation "c ;; k" := (bind c (fun _ => k))
  (at level 61, right associativity) : js_scope.

Definition get {A} (f : World -> A) : M A := fun w => (Val (f w), w).

Definition modify (f : World -> World) : M unit := fun w => (Val tt, f w).

Definition when (b : bool) (c : M unit) : M unit :=
  if b then c else ret tt.

(** [try { body } catch (e) { handler e } finally { fin }]: the handler
    runs on a throw of the body, the finaliser runs after either, and a
    throw of the finaliser replaces the pending completion.  A body that
    never resumes runs neither. *)
Definition try_catch_finally {A}
    (body : M A) (handler : exn -> M A) (fin : M unit) : M A :=
  fun w =>
    let after_catch :=
      match body w with
      | (Val a, w1) => (Val a, w1)
      | (Throw e, w1) => handler e w1
      | (Suspended, w1) => (Suspended, w1)
      end in
    match after_catch with
    | (Suspended, w2) => (Suspended, w2)
    | (r, w2) =>
        match fin w2 with
        | (Val _, w3) => (r, w3)
        | (Throw e, w3) => (Throw e, w3)
        | (Suspended, w3) => (Suspended, w3)
        end
    end.

(** *** Console and engine primitives *)

Definition console_log (m : logmsg) : M unit := modify (emit (EvLog m)).

Definition console_error (e : exn) : M unit := modify (emit (EvError e)).

Definition vf32_ptr (wasmModule : WasmModule) (vec : FloatVector) : Z :=
  vec_data vec.

Definition _free (wasmModule : WasmModule) (p : Z) : M unit :=
  modify (emit (EvFree p)).

Local Open Scope js_scope.

(** ** Typed arrays *)

(** The floats a typed array denotes in a given world. *)
Definition elements (w : World) (a : Float32Array.t) : list float32 :=
  let first := (Float32Array.byteOffset a / 4)%Z in
  match Float32Array.buffer a with
  | WasmMemory =>
      map (fun i => HEAPF32 w (first + Z.of_nat i)%Z)
          (seq 0 (Float32Array.length a))
  | HostBuf k =>
      firstn (Float32Array.length a)
             (skipn (Z.to_nat first) (nth k (hostBuffers w) []))
  end.

(** [new Float32Array(wasmModule.HEAPF32.buffer, byteOffset, length)]: a
    view, no allocation.  The constructor throws a [RangeError] for a
    negative or unaligned offset and for a range that leaves the buffer. *)
Definition new_Float32Array (env : Env) (byteOffset : Z) (length : nat)
  : M Float32Array.t :=
  if ((0 <=? byteOffset) && (byteOffset mod 4 =? 0)
      && (byteOffset + 4 * Z.of_nat length <=? heapBytes env))%Z
  then ret (Float32Array.mk WasmMemory byteOffset length)
  else throw RangeError.

(** [buffer.map(f)]: allocates a new [Float32Array] of the same length on
    a new host [ArrayBuffer] and fills it; the allocation may fail.  The
    callback is taken as a pure function whose results are [float32]
    values already, which is exact for the identity, the only callback
    the script passes (line 5, lines 19-24); a callback that throws, has
    effects, or returns a number that the store has to round is outside
    this model. *)
Definition Float32Array_map (env : Env) (f : float32 -> float32)
    (a : Float32Array.t) : M Float32Array.t :=
  fun w =>
    let k := List.length (hostBuffers w) in
    if hostAlloc env k (Float32Array.length a) then
      (Val (Float32Array.mk (HostBuf k) 0 (Float32Array.length a)),
       set_hostBuffers (hostBuffers w ++ [map f (elements w a)]) w)
    else (Throw RangeError, w).

(** ** src/spz.js, lines 5-36 *)

Definition floatVectorToFloatArray (env : Env) (wasmModule : WasmModule)
    (vec : FloatVector) (enhancementFunc : float32 -> float32)
  : M Float32Array.t :=
  let pointer := vf32_ptr wasmModule vec in
  let size := vec_size vec in
  buffer <- new_Float32Array env pointer size ;;
  copiedBuffer <- Float32Array_map env enhancementFunc buffer ;;
  ret copiedBuffer.

Definition createGaussianCloudFromRaw (env : Env) (wasmModule : WasmModule)
    (raw : Raw.t) : M Cloud.t :=
  let dflt := fun n : float32 => n in
  positions <- floatVectorToFloatArray env wasmModule (Raw.positions raw) dflt ;;
  scales <- floatVectorToFloatArray env wasmModule (Raw.scales raw) dflt ;;
  rotations <- floatVectorToFloatArray env wasmModule (Raw.rotations raw) dflt ;;
  alphas <- floatVectorToFloatArray env wasmModule (Raw.alphas raw) dflt ;;
  colors <- floatVectorToFloatArray env wasmModule (Raw.colors raw) dflt ;;
  sh <- floatVectorToFloatArray env wasmModule (Raw.sh raw) dflt ;;
  ret (Cloud.mk (Raw.numPoints raw) (Raw.shDegree raw) (Raw.antialiased raw)
                positions scales rotations alphas colors sh).

Definition disposeRawGSCloud (wasmModule : WasmModule) (raw : Raw.t)
  : M unit :=
  _free wasmModule (vf32_ptr wasmModule (Raw.positions raw)) ;;
  _free wasmModule (vf32_ptr wasmModule (Raw.scales raw)) ;;
  _free wasmModule (vf32_ptr wasmModule (Raw.rotations raw)) ;;
  _free wasmModule (vf32_ptr wasmModule (Raw.alphas raw)) ;;
  _free wasmModule (vf32_ptr wasmModule (Raw.colors raw)) ;;
  _free wasmModule (vf32_ptr wasmModule (Raw.sh raw)).

(** ** src/spz.js, lines 39-63: the engine singleton *)

Fixpoint list_set {A} (l : list A) (i : nat) (x : A) : list A :=
  match l, i with
  | [], _ => []
  | _ :: t, O => x :: t
  | h :: t, S j => h :: list_set t j x
  end.

(** [resolve] and [reject] of the promise [p]; a settled promise ignores
    both. *)
Definition settle (p : PromiseId) (s : PromiseState) (w : World) : World :=
  match nth_error (promises w) p with
  | Some Pending => set_promises (list_set (promises w) p s) w
  | _ => w
  end.

Module SpzSingleton.

(** [getInstance()] up to the first suspension.  The executor passed to
    [new Promise] runs synchronously: it calls [spzwasm()] and suspends at
    the [await]; only then is the new promise stored in [loadingPromise]. *)
Definition getInstance : M PromiseId :=
  fun w =>
    match instance w with
    | Some i =>
        (Val (List.length (promises w)),
         set_promises (promises w ++ [Fulfilled i]) w)
    | None =>
        match loadingPromise w with
        | None =>
            let p := List.length (promises w) in
            (Val p,
             set_loadingPromise (Some p)
               (emit EvSpzwasm (set_promises (promises w ++ [Pending]) w)))
        | Some p => (Val p, w)
        end
    end.

(** The rest of the executor of promise [p], resumed when the promise
    returned by [spzwasm()] settles with [r] (lines 51-57). *)
Definition executor_resume (p : PromiseId) (r : exn + WasmModule)
    (w : World) : World :=
  match nth_error (promises w) p with
  | Some Pending =>
      match r with
      | inr m =>
          settle p (Fulfilled m)
            (emit (EvLog LogWasmLoaded) (set_instance (Some m) w))
      | inl err =>
          settle p (Rejected err) (emit (EvError err) w)
      end
  | _ => w
  end.

End SpzSingleton.

(** [await p] for a promise handed out by [getInstance], under run-to-
    completion scheduling: when [p] is still pending, the engine start-up
    settles now, the way [env] says. *)
Definition await_instance (env : Env) (p : PromiseId) : M WasmModule :=
  fun w =>
    let w1 := SpzSingleton.executor_resume p (spzwasm env) w in
    match nth_error (promises w1) p with
    | Some (Fulfilled m) => (Val m, w1)
    | Some (Rejected e) => (Throw e, w1)
    | _ => (Suspended, w1)
    end.

(** ** src/spz.js, lines 66-141: [load] *)

(** [await fetch(url)] *)
Definition await_fetch (env : Env) (url : string)
  : M (bool * Z * (exn + list Byte.byte)) :=
  modify (emit (EvFetch url)) ;;
  match fetch env url with
  | FetchReject e => throw e
  | FetchResponse ok status body => ret (ok, status, body)
  end.

(** [await response.arrayBuffer()] *)
Definition await_arrayBuffer (body : exn + list Byte.byte)
  : M (list Byte.byte) :=
  match body with
  | inl e => throw e
  | inr bytes => ret bytes
  end.

Definition URL_revokeObjectURL (url : string) : M unit :=
  modify (emit (EvRevoke url)).

Definition instance_malloc (env : Env) (inst : WasmModule) (size : Z)
  : M (option Z) :=
  let r := _malloc env inst size in
  modify (emit (EvMalloc size r)) ;;
  ret r.

(** [instance.HEAPU8.set(data, offset)]: a [RangeError] when the bytes do
    not fit at that offset. *)
Definition HEAPU8_set (env : Env) (data : list Byte.byte) (offset : Z)
  : M unit :=
  if ((0 <=? offset)
      && (offset + Z.of_nat (List.length data) <=? heapBytes env))%Z
  then modify (emit (EvHeapSet data offset))
  else throw RangeError.

Definition instance_load_spz (env : Env) (inst : WasmModule)
    (p len : Z) (data : list Byte.byte) : M Raw.t :=
  match load_spz env inst p len data with
  | DecodeThrow e =>
      modify (emit (EvLoadSpz p len None)) ;;
      throw e
  | DecodeOk raw heap =>
      modify (emit (EvLoadSpz p len (Some raw))) ;;
      modify (set_HEAPF32 heap) ;;
      ret raw
  end.

Definition BufId_eqb (a b : BufId) : bool :=
  match a, b with
  | WasmMemory, WasmMemory => true
  | HostBuf i, HostBuf j => Nat.eqb i j
  | _, _ => false
  end.

Fixpoint distinct (l : list BufId) : bool :=
  match l with
  | [] => true
  | b :: t => negb (existsb (BufId_eqb b) t) && distinct t
  end.

(** [self.postMessage(message, transfer)]: the structured clone throws a
    [DataCloneError] when the transfer list names a buffer twice. *)
Definition postMessage (gaussianCloud : Envelope.t) (transfer : list BufId)
  : M unit :=
  if distinct transfer
  then modify (emit (EvPost gaussianCloud transfer))
  else throw DataCloneError.

Definition BYTES_PER_ELEMENT : Z := 1.

(** The [try] block, lines 73-130. *)
Definition load_try (env : Env) (url : string) (inst : WasmModule)
  : M unit :=
  response <- await_fetch env url ;;
  let '(ok, status, body) := response in
  when (negb ok) (throw (FetchFailed status)) ;;
  URL_revokeObjectURL url ;;
  spzData <- await_arrayBuffer body ;;
  console_log (LogDataLength (List.length spzData)) ;;
  p <- instance_malloc env inst
         (BYTES_PER_ELEMENT * Z.of_nat (List.length spzData)) ;;
  modify (set_pointer p) ;;
  match p with
  | None => throw AllocFailed
  | Some ptr =>
      HEAPU8_set env spzData (ptr / BYTES_PER_ELEMENT) ;;
      rawGsCloud <- instance_load_spz env inst ptr
                      (Z.of_nat (List.length spzData)) spzData ;;
      console_log (LogRawNumPoints (Raw.numPoints rawGsCloud)) ;;
      gaussianCloud <- createGaussianCloudFromRaw env inst rawGsCloud ;;
      disposeRawGSCloud inst rawGsCloud ;;
      console_log (LogCloudNumPoints (Cloud.numPoints gaussianCloud)) ;;
      postMessage
        (Envelope.mk
           (Cloud.numPoints gaussianCloud)
           (Cloud.shDegree gaussianCloud)
           (Cloud.antialiased gaussianCloud)
           (Float32Array.buffer (Cloud.positions gaussianCloud))
           (Float32Array.buffer (Cloud.scales gaussianCloud))
           (Float32Array.buffer (Cloud.rotations gaussianCloud))
           (Float32Array.buffer (Cloud.alphas gaussianCloud))
           (Float32Array.buffer (Cloud.colors gaussianCloud))
           (Float32Array.buffer (Cloud.sh gaussianCloud)))
        [ Float32Array.buffer (Cloud.positions gaussianCloud);
          Float32Array.buffer (Cloud.scales gaussianCloud);
          Float32Array.buffer (Cloud.rotations gaussianCloud);
          Float32Array.buffer (Cloud.alphas gaussianCloud);
          Float32Array.buffer (Cloud.colors gaussianCloud);
          Float32Array.buffer (Cloud.sh gaussianCloud) ]
  end.

(** The [finally] block, lines 135-140. *)
Definition load_finally (inst : WasmModule) : M unit :=
  p <- get pointer ;;
  match p with
  | Some ptr =>
      _free inst ptr ;;
      console_log LogDone
  | None => ret tt
  end.

Definition load (env : Env) (url : string) : M unit :=
  modify (set_pointer None) ;;
  promise <- SpzSingleton.getInstance ;;
  inst <- await_instance env promise ;;
  console_log (LogInstance inst) ;;
  try_catch_finally
    (load_try env url inst)
    (fun e => console_error e)
    (load_finally inst).

(** ** src/spz.js, lines 144-153: the worker *)

Record MessageData : Type := mkMsg {
  type : string;
  url : string
}.

(** The listener body: [switch (type) { case 'load': await load(url) }]. *)
Definition listener (env : Env) (data : MessageData) : M unit :=
  if String.eqb (type data) "load"
  then load env (url data)
  else ret tt.

(** Top level of the script: [self.addEventListener('message', ...)]. *)
Definition main (w : World) : World := set_listening true w.

(** Delivery of one message.  The listener is an [async] function: a
    throw inside it rejects the promise it returned, which nobody handles;
    the runtime reports the rejection and goes on. *)
Definition deliver (env : Env) (data : MessageData) (w : World) : World :=
  if listening w then
    match listener env data w with
    | (Throw e, w1) => emit (EvUnhandled e) w1
    | (_, w1) => w1
    end
  else w.

(** The worker over a sequence of messages, each with the answers its
    collaborators give while it is served. *)
Fixpoint worker (msgs : list (Env * MessageData)) (w : World) : World :=
  match msgs with
  | [] => w
  | (env, data) :: rest => worker rest (deliver env data w)
  end.

(** ** The singleton under concurrent callers *)

(** What can happen to the singleton: somebody calls [getInstance], or
    the start-up awaited by the executor of promise [p] settles. *)
Inductive SingletonEvent : Type :=
| Call
| Settles (p : PromiseId) (r : exn + WasmModule).

(** Runs the events in order and collects what each caller was handed. *)
Fixpoint run_singleton (evs : list SingletonEvent) (w : World)
  : list PromiseId * World :=
  match evs with
  | [] => ([], w)
  | Call :: rest =>
      match SpzSingleton.getInstance w with
      | (Val p, w1) =>
          let (ps, w2) := run_singleton rest w1 in (p :: ps, w2)
      | (_, w1) => run_singleton rest w1
      end
  | Settles p r :: rest =>
      run_singleton rest (SpzSingleton.executor_resume p r w)
  end.

(** ** Measures on traces *)

Definition is_spzwasm (e : event) : bool :=
  match e with EvSpzwasm => true | _ => false end.

(** How many times the engine start-up [spzwasm()] was invoked. *)
Definition spzwasm_calls (tr : list event) : nat :=
  List.length (filter is_spzwasm tr).

Definition vectors (raw : Raw.t) : list FloatVector :=
  [ Raw.positions raw; Raw.scales raw; Raw.rotations raw;
    Raw.alphas raw; Raw.colors raw; Raw.sh raw ].

Definition arrays (gc : Cloud.t) : list Float32Array.t :=
  [ Cloud.positions gc; Cloud.scales gc; Cloud.rotations gc;
    Cloud.alphas gc; Cloud.colors gc; Cloud.sh gc ].

Definition envelope_buffers (g : Envelope.t) : list BufId :=
  [ Envelope.positions g; Envelope.scales g; Envelope.rotations g;
    Envelope.alphas g; Envelope.colors g; Envelope.sh g ].

(** Engine buffers handed to the script: the block a successful
    [_malloc] returned and the data blocks of the six output vectors of a
    successful [load_spz]. *)
Definition acquired_by (e : event) : list Z :=
  match e with
  | EvMalloc _ (Some p) => [p]
  | EvLoadSpz _ _ (Some raw) => map vec_data (vectors raw)
  | _ => []
  end.

Definition released_by (e : event) : list Z :=
  match e with
  | EvFree p => [p]
  | _ => []
  end.

Definition acquired (tr : list event) : list Z := flat_map acquired_by tr.

Definition released (tr : list event) : list Z := flat_map released_by tr.

Definition is_post (e : event) : bool :=
  match e with EvPost _ _ => true | _ => false end.

(** The outbound messages of a trace. *)
Definition posts (tr : list event) : list event := filter is_post tr.

Definition is_revoke (e : event) : bool :=
  match e with EvRevoke _ => true | _ => false end.

Definition revokes (tr : list event) : list event := filter is_revoke tr.

(** The events a run added: what [w1] has beyond [w0]. *)
Definition new_events (w0 w1 : World) : list event :=
  skipn (List.length (trace w0)) (trace w1).

(** The first two steps of [load]: obtain the engine. *)
Definition acquire_engine (env : Env) : M WasmModule :=
  promise <- SpzSingleton.getInstance ;;
  await_instance env promise.

(** The zero-copy view line 8 builds over the data of an engine vector. *)
Definition view (vec : FloatVector) : Float32Array.t :=
  Float32Array.mk WasmMemory (vec_data vec) (vec_size vec).

(** Whether line 8 accepts the vector: aligned and inside the memory. *)
Definition view_ok (env : Env) (vec : FloatVector) : bool :=
  ((0 <=? vec_data vec) && (vec_data vec mod 4 =? 0)
   && (vec_data vec + 4 * Z.of_nat (vec_size vec) <=? heapBytes env))%Z.

(** Whether the six copies of lines 19-24 go through when the host
    already holds [k] buffers: every view is accepted and every
    allocation succeeds. *)
Fixpoint copies_ok (env : Env) (k : nat) (vs : list FloatVector) : bool :=
  match vs with
  | [] => true
  | v :: rest =>
      view_ok env v && hostAlloc env k (vec_size v)
      && copies_ok env (S k) rest
  end.

(** The contents the six views show in world [w]. *)
Definition copies (w : World) (raw : Raw.t) : list (list float32) :=
  map (fun v => elements w (view v)) (vectors raw).

(** The array object [buffer.map] returns when it is the host's [k]-th
    allocation. *)
Definition copy_at (k : nat) (v : FloatVector) : Float32Array.t :=
  Float32Array.mk (HostBuf k) 0 (vec_size v).

(** The Scene lines 15-25 build when the host already holds [k] buffers. *)
Definition scene_at (k : nat) (raw : Raw.t) : Cloud.t :=
  Cloud.mk (Raw.numPoints raw) (Raw.shDegree raw) (Raw.antialiased raw)
    (copy_at k (Raw.positions raw))
    (copy_at (1 + k) (Raw.scales raw))
    (copy_at (2 + k) (Raw.rotations raw))
    (copy_at (3 + k) (Raw.alphas raw))
    (copy_at (4 + k) (Raw.colors raw))
    (copy_at (5 + k) (Raw.sh raw)).

(** Whether line 88 accepts the offset: the bytes fit in the memory. *)
Definition heapset_ok (env : Env) (data : list Byte.byte) (offset : Z)
  : bool :=
  ((0 <=? offset)
   && (offset + Z.of_nat (List.length data) <=? heapBytes env))%Z.

(** The [gaussianCloud] object and the transfer list of lines 110-130. *)
Definition envelope_of (gc : Cloud.t) : Envelope.t :=
  Envelope.mk (Cloud.numPoints gc) (Cloud.shDegree gc) (Cloud.antialiased gc)
    (Float32Array.buffer (Cloud.positions gc))
    (Float32Array.buffer (Cloud.scales gc))
    (Float32Array.buffer (Cloud.rotations gc))
    (Float32Array.buffer (Cloud.alphas gc))
    (Float32Array.buffer (Cloud.colors gc))
    (Float32Array.buffer (Cloud.sh gc)).

Definition transfer_of (gc : Cloud.t) : list BufId :=
  map Float32Array.buffer (arrays gc).

(** A world that differs from [w] in the engine memory, in the host
    buffers it gained, in [pointer] and in the events it gained. *)
Definition after (w : World) (heap : Z -> float32)
    (bs : list (list float32)) (ptr : option Z) (evs : list event) : World :=
  mkWorld (instance w) (loadingPromise w) (promises w) heap
          (hostBuffers w ++ bs) ptr (listening w) (trace w ++ evs).

(** The events of [load_try] up to and including the allocation. *)
Definition fetched_events (url : string) (bytes : list Byte.byte)
    (r : option Z) : list event :=
  [ EvFetch url; EvRevoke url; EvLog (LogDataLength (List.length bytes));
    EvMalloc (BYTES_PER_ELEMENT * Z.of_nat (List.length bytes)) r ].

(** ... and up to and including the decode. *)
Definition decoded_events (url : string) (bytes : list Byte.byte)
    (ptr : Z) (r : option Raw.t) : list event :=
  fetched_events url bytes (Some ptr) ++
  [ EvHeapSet bytes (ptr / BYTES_PER_ELEMENT);
    EvLoadSpz ptr (Z.of_nat (List.length bytes)) r ].

(** The events of the [finally] block. *)
Definition finally_events (p : option Z) : list event :=
  match p with
  | Some ptr => [EvFree ptr; EvLog LogDone]
  | None => []
  end.

(** The events of lines 98-130 on the success path, for a host that held
    [k] buffers before the copy. *)
Definition posted_events (k : nat) (raw : Raw.t) : list event :=
  map EvFree (map vec_data (vectors raw))
  ++ [ EvLog (LogCloudNumPoints (Raw.numPoints raw));
       EvPost (envelope_of (scene_at k raw)) (transfer_of (scene_at k raw)) ].

(** What the [try] block does, read off the answers of the collaborators:
    how it ends, the value of [pointer] at its end, and the events it
    adds.  [k] is the number of host buffers and [p0] the value of
    [pointer] when the block starts. *)
Definition try_summary (env : Env) (url : string) (inst : WasmModule)
    (k : nat) (p0 : option Z) : Res unit * option Z * list event :=
  match fetch env url with
  | FetchReject e => (Throw e, p0, [EvFetch url])
  | FetchResponse false status _ =>
      (Throw (FetchFailed status), p0, [EvFetch url])
  | FetchResponse true _ (inl e) => (Throw e, p0, [EvFetch url; EvRevoke url])
  | FetchResponse true _ (inr bytes) =>
      let size := (BYTES_PER_ELEMENT * Z.of_nat (List.length bytes))%Z in
      match _malloc env inst size with
      | None => (Throw AllocFailed, None, fetched_events url bytes None)
      | Some ptr =>
          if heapset_ok env bytes (ptr / BYTES_PER_ELEMENT) then
            match load_spz env inst ptr (Z.of_nat (List.length bytes)) bytes
            with
            | DecodeThrow e =>
                (Throw e, Some ptr, decoded_events url bytes ptr None)
            | DecodeOk raw heap =>
                let evs := decoded_events url bytes ptr (Some raw)
                           ++ [EvLog (LogRawNumPoints (Raw.numPoints raw))] in
                if copies_ok env k (vectors raw)
                then (Val tt, Some ptr, evs ++ posted_events k raw)
                else (Throw RangeError, Some ptr, evs)
            end
          else
            (Throw RangeError, Some ptr, fetched_events url bytes (Some ptr))
      end
  end.

(** The events of the whole [try] statement, lines 72-140: the block,
    the [catch] clause when the block threw, the [finally] clause. *)
Definition guarded_events (env : Env) (url : string) (inst : WasmModule)
    (k : nat) (p0 : option Z) : list event :=
  let '(r, p, evs) := try_summary env url inst k p0 in
  evs
  ++ match r with Throw e => [EvError e] | _ => [] end
  ++ finally_events p.

(** The events [getInstance] and the engine start-up can add. *)
Definition is_engine_event (e : event) : bool :=
  match e with
  | EvSpzwasm | EvLog LogWasmLoaded | EvError _ => true
  | _ => false
  end.

(** ** The life of the singleton *)

(** Nothing requested yet; start-up in flight; engine ready; start-up
    failed. *)
Inductive Phase : Type :=
| Fresh
| Loading
| Ready (m : WasmModule)
| Failed (e : exn).

(** What the singleton fields and the promise store look like in each
    phase. *)
Definition in_phase (ph : Phase) (w : World) : Prop :=
  match ph with
  | Fresh =>
      instance w = None /\ loadingPromise w = None /\ promises w = []
      /\ spzwasm_calls (trace w) = 0
  | Loading =>
      instance w = None /\ loadingPromise w = Some 0
      /\ promises w = [Pending] /\ spzwasm_calls (trace w) = 1
  | Ready m =>
      instance w = Some m /\ loadingPromise w = Some 0
      /\ (exists n, promises w = repeat (Fulfilled m) (S n))
      /\ spzwasm_calls (trace w) = 1
  | Failed e =>
      instance w = None /\ loadingPromise w = Some 0
      /\ promises w = [Rejected e] /\ spzwasm_calls (trace w) = 1
  end.

Definition phase_call (ph : Phase) : Phase :=
  match ph with
  | Fresh => Loading
  | _ => ph
  end.

Definition phase_settle (p : PromiseId) (r : exn + WasmModule) (ph : Phase)
  : Phase :=
  match ph, p, r with
  | Loading, O, inr m => Ready m
  | Loading, O, inl e => Failed e
  | _, _, _ => ph
  end.

Definition phase_event (ph : Phase) (ev : SingletonEvent) : Phase :=
  match ev with
  | Call => phase_call ph
  | Settles p r => phase_settle p r ph
  end.

(** What obtaining the engine does in each phase, under run-to-completion
    scheduling: the outcome, the next phase, the events. *)
Definition acquire_result (env : Env) (ph : Phase)
  : Res WasmModule * Phase * list event :=
  match ph, spzwasm env with
  | Fresh, inr m => (Val m, Ready m, [EvSpzwasm; EvLog LogWasmLoaded])
  | Fresh, inl e => (Throw e, Failed e, [EvSpzwasm; EvError e])
  | Loading, inr m => (Val m, Ready m, [EvLog LogWasmLoaded])
  | Loading, inl e => (Throw e, Failed e, [EvError e])
  | Ready m, _ => (Val m, Ready m, [])
  | Failed e, _ => (Throw e, Failed e, [])
  end.

(** [w1] differs from [w] in the singleton and in the events [evs]. *)
Definition engine_frame (w w1 : World) (evs : list event) : Prop :=
  HEAPF32 w1 = HEAPF32 w /\ hostBuffers w1 = hostBuffers w
  /\ pointer w1 = pointer w /\ listening w1 = listening w
  /\ trace w1 = trace w ++ evs.

(** What it means for the array [a] to be a host copy of the engine
    vector [v] made between the worlds [w] and [w']: it sits on a buffer
    the host allocated in between, that buffer holds what the view over
    the vector showed, and in any world with the same host buffers the
    array reads back those floats, whatever the engine memory holds by
    then. *)
Definition host_copy (w w' : World) (a : Float32Array.t) (v : FloatVector)
  : Prop :=
  exists k,
    Float32Array.buffer a = HostBuf k
    /\ List.length (hostBuffers w) <= k < List.length (hostBuffers w')
    /\ nth_error (hostBuffers w') k = Some (elements w (view v))
    /\ forall w2, hostBuffers w2 = hostBuffers w' ->
                  elements w2 a = elements w (view v).

(** Whether the engine start-up succeeds under [env]. *)
Definition start_ok (env : Env) : bool :=
  match spzwasm env with
  | inr _ => true
  | inl _ => false
  end.

(** The phase a delivered message leaves the singleton in. *)
Definition phase_deliver (env : Env) (data : MessageData) (ph : Phase)
  : Phase :=
  if String.eqb (type data) "load"
  then snd (fst (acquire_result env ph))
  else ph.

(** Phases in which the engine can still be obtained. *)
Definition healthy (ph : Phase) : bool :=
  match ph with
  | Fresh | Ready _ => true
  | Loading | Failed _ => false
  end.

(** ** The length invariant of the specification *)

(** The six length equalities, for a coefficient count [shCoeffCount]
    per degree; [lens] lists the lengths of positions, scales, rotations,
    alphas, colors and sh. *)
Definition stride_invariant (shCoeffCount : nat -> nat)
    (numPoints shDegree : nat) (lens : list nat) : Prop :=
  lens = [ numPoints * 3; numPoints * 3; numPoints * 4; numPoints * 1;
           numPoints * 3; numPoints * 3 * shCoeffCount shDegree ].

(** ** Sample collaborators *)

(** A one-point cloud of degree 0 as the engine lays it out. *)
Definition sample_raw : Raw.t :=
  Raw.mk 1 0 false (mkVec 64 3) (mkVec 80 3) (mkVec 96 4) (mkVec 112 1)
         (mkVec 128 3) (mkVec 0 0).

(** A handle that announces one point and carries no data. *)
Definition short_raw : Raw.t :=
  Raw.mk 1 0 false (mkVec 0 0) (mkVec 0 0) (mkVec 0 0) (mkVec 0 0)
         (mkVec 0 0) (mkVec 0 0).

Definition sample_bytes : list Byte.byte := [Byte.x4e; Byte.x47].

Definition sample_heap : Z -> float32 := fun i => (100 + i)%Z.

(** Every collaborator answers well. *)
Definition env_ok : Env :=
  mkEnv (inr 7)
        (fun _ => FetchResponse true 200 (inr sample_bytes))
        (fun _ _ => Some 16%Z)
        1024
        (fun _ _ _ _ => DecodeOk sample_raw sample_heap)
        (fun _ _ => true).

(** The engine decodes to [short_raw]. *)
Definition env_short : Env :=
  mkEnv (inr 7)
        (fun _ => FetchResponse true 200 (inr sample_bytes))
        (fun _ _ => Some 16%Z)
        1024
        (fun _ _ _ _ => DecodeOk short_raw sample_heap)
        (fun _ _ => true).

(** The host runs out of memory at its third allocation. *)
Definition env_host_oom : Env :=
  mkEnv (inr 7)
        (fun _ => FetchResponse true 200 (inr sample_bytes))
        (fun _ _ => Some 16%Z)
        1024
        (fun _ _ _ _ => DecodeOk sample_raw sample_heap)
        (fun k _ => Nat.ltb k 2).

(** The server answers 404. *)
Definition env_404 : Env :=
  mkEnv (inr 7)
        (fun _ => FetchResponse false 404 (inr []))
        (fun _ _ => Some 16%Z)
        1024
        (fun _ _ _ _ => DecodeOk sample_raw sample_heap)
        (fun _ _ => true).

(** [_malloc] answers [null], the value line 85 tests for. *)
Definition env_no_memory : Env :=
  mkEnv (inr 7)
        (fun _ => FetchResponse true 200 (inr sample_bytes))
        (fun _ _ => None)
        1024
        (fun _ _ _ _ => DecodeOk sample_raw sample_heap)
        (fun _ _ => true).

(** The engine cannot allocate: [_malloc] answers 0, the failure value
    of an allocator compiled to WebAssembly. *)
Definition env_malloc_zero : Env :=
  mkEnv (inr 7)
        (fun _ => FetchResponse true 200 (inr sample_bytes))
        (fun _ _ => Some 0%Z)
        1024
        (fun _ _ _ _ => DecodeOk sample_raw sample_heap)
        (fun _ _ => true).

(** The engine does not start. *)
Definition env_init_fails : Env :=
  mkEnv (inl (Foreign 1))
        (fun _ => FetchResponse true 200 (inr sample_bytes))
        (fun _ _ => Some 16%Z)
        1024
        (fun _ _ _ _ => DecodeOk sample_raw sample_heap)
        (fun _ _ => true).

(** ** Further measures on traces *)

(** Calls into the engine: [_malloc], [HEAPU8.set], [load_spz], [_free]. *)
Definition is_engine_call (e : event) : bool :=
  match e with
  | EvMalloc _ _ | EvHeapSet _ _ | EvLoadSpz _ _ _ | EvFree _ => true
  | _ => false
  end.

Definition engine_calls (tr : list event) : list event :=
  filter is_engine_call tr.

(** What [console.error] printed. *)
Definition is_error (e : event) : bool :=
  match e with EvError _ => true | _ => false end.

Definition errors (tr : list event) : list event := filter is_error tr.

(** The engine handles line 70 logged. *)
Definition logged_instance (e : event) : list WasmModule :=
  match e with
  | EvLog (LogInstance m) => [m]
  | _ => []
  end.

Definition logged_instances (tr : list event) : list WasmModule :=
  flat_map logged_instance tr.

(** Whether a message is a load command. *)
Definition is_load (m : Env * MessageData) : bool :=
  String.eqb (type (snd m)) "load".

(** The engine rejects the bytes. *)
Definition env_bad_bytes : Env :=
  mkEnv (inr 7)
        (fun _ => FetchResponse true 200 (inr sample_bytes))
        (fun _ _ => Some 16%Z)
        1024
        (fun _ _ _ _ => DecodeThrow (Foreign 2))
        (fun _ _ => true).

(** Whether the engine start-up has been invoked by the time the
    singleton is in phase [ph]. *)
Definition started (ph : Phase) : bool :=
  match ph with
  | Fresh => false
  | _ => true
  end.


Unset Implicit Arguments.

(** ** Page utilities (src/build.sh, the script after the build
       commands, lines 47-87)

    The functions read the query string of the page through a
    [URLSearchParams] object; here they take that object as an argument.
    Strings are sequences of code units.  [Number] and [isNaN] are the
    platform's and are taken as parameters. *)

From Stdlib Require Import Ascii.

Module Utils.

Local Open Scope string_scope.

(** A [URLSearchParams] object: its name-value pairs, in order. *)
Definition URLSearchParams : Type := list (string * string).

(** [params.has(name)] *)
Definition has (params : URLSearchParams) (name : string) : bool :=
  existsb (fun kv => String.eqb (fst kv) name) params.

(** [params.get(name)]: the value of the first pair of that name; [None]
    is [null]. *)
Definition get (params : URLSearchParams) (name : string) : option string :=
  match find (fun kv => String.eqb (fst kv) name) params with
  | Some kv => Some (snd kv)
  | None => None
  end.

(** [toLowerCase] on one code unit.  Outside the ASCII letters the unit
    is kept: no code unit outside ASCII is mapped to a letter of ["http"],
    the only text the scripts look for in a lowered string. *)
Definition lower (c : ascii) : ascii :=
  let n := nat_of_ascii c in
  if ((65 <=? n) && (n <=? 90))%nat then ascii_of_nat (n + 32) else c.

Fixpoint toLowerCase (s : string) : string :=
  match s with
  | EmptyString => EmptyString
  | String c rest => String (lower c) (toLowerCase rest)
  end.

Fixpoint startsWith (s sub : string) : bool :=
  match sub, s with
  | EmptyString, _ => true
  | String a sub', String b s' => Ascii.eqb a b && startsWith s' sub'
  | String _ _, EmptyString => false
  end.

(** [s.includes(sub)] *)
Fixpoint includes (s sub : string) : bool :=
  startsWith s sub
  || match s with
     | EmptyString => false
     | String _ rest => includes rest sub
     end.

(** How a function ends: it returns, or a [TypeError] is thrown. *)
Inductive completion (A : Type) : Type :=
| Returns (a : A)
| TypeError.

Arguments Returns {A} a.
Arguments TypeError {A}.

Definition base_url : string :=
  "https://huggingface.co/datasets/satyoshi/gauzilla-data/resolve/main/".

(** Lines 47-58. *)
Definition get_url_param (params : URLSearchParams) : completion string :=
  if has params "url" then
    match get params "url" with
    | Some url =>
        if negb (includes (toLowerCase url) "http")
        then Returns (base_url ++ url)
        else Returns url
    | None => TypeError
    end
  else Returns "".

(** [s.split(sep)] for a separator of one code unit. *)
Fixpoint split (s : string) (sep : ascii) : list string :=
  match s with
  | EmptyString => [EmptyString]
  | String c rest =>
      if Ascii.eqb c sep then EmptyString :: split rest sep
      else match split rest sep with
           | field :: fields => String c field :: fields
           | [] => [String c EmptyString]
           end
  end.

(** How many times the code unit [c] occurs in [s]. *)
Fixpoint occurrences (c : ascii) (s : string) : nat :=
  match s with
  | EmptyString => 0
  | String d rest => ((if Ascii.eqb d c then 1 else 0) + occurrences c rest)%nat
  end.

Section Numbers.

(** JavaScript numbers, [Number(string)], [isNaN(number)] and the number
    a literal denotes. *)
Variable num : Type.
Variable Number : string -> num.
Variable isNaN : num -> bool.
Variable lit : Z -> num.

(** Lines 61-72.  [!param] holds for [null] and for the empty string. *)
Definition getVectorParam (params : URLSearchParams) (paramName : string)
    (defaultValue : list num) : list num :=
  match get params paramName with
  | None => defaultValue
  | Some EmptyString => defaultValue
  | Some param =>
      let numbers := map Number (split param ","%char) in
      if negb (List.length numbers =? 3)%nat || existsb isNaN numbers
      then defaultValue
      else numbers
  end.

(** Lines 75-87. *)
Definition get_position_param (params : URLSearchParams) : list num :=
  getVectorParam params "position" [lit 0; lit 0; lit 5].

Definition get_target_param (params : URLSearchParams) : list num :=
  getVectorParam params "target" [lit 0; lit 0; lit 0].

Definition get_up_param (params : URLSearchParams) : list num :=
  getVectorParam params "up" [lit 0; lit 1; lit 0].

End Numbers.

(** A stand-in for [Number] that agrees with it on the empty string and
    on unsigned decimal integers and answers NaN, [None], elsewhere. *)
Fixpoint digits (acc : Z) (s : string) : option Z :=
  match s with
  | EmptyString => Some acc
  | String c rest =>
      let n := nat_of_ascii c in
      if ((48 <=? n) && (n <=? 57))%nat
      then digits (10 * acc + Z.of_nat (n - 48)) rest
      else None
  end.

Definition sample_Number (s : string) : option Z := digits 0 s.

Definition sample_isNaN (x : option Z) : bool :=
  match x with
  | None => true
  | Some _ => false
  end.

End Utils.

(** * Proofs *)

Unset Implicit Arguments.

(** ** Stepping through monadic code *)

Ltac js_unfold :=
  unfold floatVectorToFloatArray, disposeRawGSCloud, await_fetch,
    await_arrayBuffer, URL_revokeObjectURL, instance_malloc,
    instance_load_spz, postMessage, load_finally, console_log,
    console_error, _free, when, get, modify, throw, ret in *.

Ltac js_simpl :=
  cbn [bind fst snd emit set_pointer set_HEAPF32 set_hostBuffers
       set_instance set_loadingPromise set_promises set_listening
       instance loadingPromise promises HEAPF32 hostBuffers pointer
       listening trace negb] in *.

Lemma bind_Val {A B} (c : M A) (k : A -> M B) w a w1 :
  c w = (Val a, w1) -> bind c k w = k a w1.
Proof. intros H; unfold bind; now rewrite H. Qed.

Lemma bind_Throw {A B} (c : M A) (k : A -> M B) w e w1 :
  c w = (Throw e, w1) -> bind c k w = (Throw e, w1).
Proof. intros H; unfold bind; now rewrite H. Qed.

Lemma bind_Suspended {A B} (c : M A) (k : A -> M B) w w1 :
  c w = (Suspended, w1) -> bind c k w = (Suspended, w1).
Proof. intros H; unfold bind; now rewrite H. Qed.

(** ** The copy out of engine memory (lines 5-26) *)

Lemma new_Float32Array_view_ok env vec w :
  new_Float32Array env (vec_data vec) (vec_size vec) w =
  if view_ok env vec then (Val (view vec), w) else (Throw RangeError, w).
Proof.
  unfold new_Float32Array, view_ok, view.
  now destruct (_ && _ && _)%bool.
Qed.

(** One vector: either a fresh host buffer holding the mapped contents of
    the view, or a [RangeError] that leaves the world alone. *)
Lemma floatVectorToFloatArray_run env m vec f w :
  floatVectorToFloatArray env m vec f w =
  if view_ok env vec && hostAlloc env (List.length (hostBuffers w)) (vec_size vec)
  then (Val (Float32Array.mk (HostBuf (List.length (hostBuffers w))) 0
                             (vec_size vec)),
        set_hostBuffers (hostBuffers w ++ [map f (elements w (view vec))]) w)
  else (Throw RangeError, w).
Proof.
  unfold floatVectorToFloatArray, vf32_ptr, bind.
  rewrite new_Float32Array_view_ok.
  destruct (view_ok env vec); cbn [andb]; [|reflexivity].
  unfold Float32Array_map. cbn [Float32Array.length view].
  now destruct (hostAlloc _ _ _).
Qed.

Lemma elements_view_frame w bs v :
  elements (set_hostBuffers bs w) (view v) = elements w (view v).
Proof. reflexivity. Qed.

Ltac copy_step H :=
  rewrite floatVectorToFloatArray_run;
  cbn [hostBuffers set_hostBuffers];
  rewrite ?length_app; cbn [List.length];
  rewrite ?Nat.add_1_r;
  match type of H with
  | (?a && ?b && _)%bool = true =>
      let Ha := fresh "Hv" in
      let Hb := fresh "Ha" in
      apply andb_prop in H; destruct H as [H Hrest];
      apply andb_prop in H; destruct H as [Ha Hb];
      rewrite Ha, Hb; cbn [andb];
      rename Hrest into H
  end.

(** When all six copies go through, the Scene is [scene_at] and the world
    gains exactly the six copied buffers. *)
Lemma createGaussianCloudFromRaw_ok env m raw w :
  copies_ok env (List.length (hostBuffers w)) (vectors raw) = true ->
  createGaussianCloudFromRaw env m raw w =
  (Val (scene_at (List.length (hostBuffers w)) raw),
   set_hostBuffers (hostBuffers w ++ copies w raw) w).
Proof.
  intros H. unfold createGaussianCloudFromRaw, vectors in *.
  cbn [copies_ok] in H.
  unfold bind at 1. copy_step H.
  unfold bind at 1. copy_step H.
  unfold bind at 1. copy_step H.
  unfold bind at 1. copy_step H.
  unfold bind at 1. copy_step H.
  unfold bind at 1. copy_step H.
  unfold ret, scene_at, copy_at, copies, vectors.
  cbn [map Nat.add]. rewrite !map_id.
  repeat rewrite <- app_assoc. cbn [app].
  destruct w; reflexivity.
Qed.

Lemma set_hostBuffers_same w : set_hostBuffers (hostBuffers w ++ []) w = w.
Proof. destruct w; unfold set_hostBuffers; cbn. now rewrite app_nil_r. Qed.

Ltac copy_case H :=
  unfold bind at 1; rewrite floatVectorToFloatArray_run;
  cbn [hostBuffers set_hostBuffers];
  rewrite ?length_app; cbn [List.length];
  rewrite ?Nat.add_1_r;
  match goal with
  | |- context [if ?c then _ else _] =>
      let E := fresh "E" in
      destruct c eqn:E;
      [ cbn [andb] in H
      | eexists; unfold set_hostBuffers; cbn;
        rewrite <- ?app_assoc; cbn [app]; reflexivity ]
  end.

(** When one of the six copies is refused, the function throws a
    [RangeError]; the buffers copied so far stay with the host and nothing
    else in the world has changed. *)
Lemma createGaussianCloudFromRaw_fail env m raw w :
  copies_ok env (List.length (hostBuffers w)) (vectors raw) = false ->
  exists bs,
    createGaussianCloudFromRaw env m raw w =
    (Throw RangeError, set_hostBuffers (hostBuffers w ++ bs) w).
Proof.
  intros H. unfold createGaussianCloudFromRaw, vectors in *.
  cbn [copies_ok] in H.
  unfold bind at 1; rewrite floatVectorToFloatArray_run.
  destruct (view_ok env (Raw.positions raw) && _)%bool eqn:E0.
  2:{ exists []. now rewrite set_hostBuffers_same. }
  cbn [andb] in H.
  copy_case H. copy_case H. copy_case H. copy_case H. copy_case H.
  discriminate H.
Qed.

Lemma createGaussianCloudFromRaw_cases env m raw w :
  (copies_ok env (List.length (hostBuffers w)) (vectors raw) = true /\
   createGaussianCloudFromRaw env m raw w =
   (Val (scene_at (List.length (hostBuffers w)) raw),
    set_hostBuffers (hostBuffers w ++ copies w raw) w))
  \/
  (copies_ok env (List.length (hostBuffers w)) (vectors raw) = false /\
   exists bs,
     createGaussianCloudFromRaw env m raw w =
     (Throw RangeError, set_hostBuffers (hostBuffers w ++ bs) w)).
Proof.
  destruct (copies_ok env (List.length (hostBuffers w)) (vectors raw)) eqn:E.
  - left. split; [reflexivity|]. now apply createGaussianCloudFromRaw_ok.
  - right. split; [reflexivity|]. now apply createGaussianCloudFromRaw_fail.
Qed.

(** ** The paths through the [try] block (lines 73-130) *)

Lemma await_fetch_run env url w :
  await_fetch env url w =
  match fetch env url with
  | FetchReject e => (Throw e, emit (EvFetch url) w)
  | FetchResponse ok status body =>
      (Val (ok, status, body), emit (EvFetch url) w)
  end.
Proof.
  unfold await_fetch, bind, modify. now destruct (fetch env url).
Qed.

Lemma HEAPU8_set_run env data offset w :
  HEAPU8_set env data offset w =
  if heapset_ok env data offset
  then (Val tt, emit (EvHeapSet data offset) w)
  else (Throw RangeError, w).
Proof.
  unfold HEAPU8_set, heapset_ok. now destruct (_ && _)%bool.
Qed.

Lemma instance_load_spz_run env inst p len data w :
  instance_load_spz env inst p len data w =
  match load_spz env inst p len data with
  | DecodeThrow e => (Throw e, emit (EvLoadSpz p len None) w)
  | DecodeOk raw heap =>
      (Val raw, set_HEAPF32 heap (emit (EvLoadSpz p len (Some raw)) w))
  end.
Proof.
  unfold instance_load_spz. now destruct (load_spz env inst p len data).
Qed.

Lemma distinct_fresh k :
  distinct [HostBuf k; HostBuf (1 + k); HostBuf (2 + k); HostBuf (3 + k);
            HostBuf (4 + k); HostBuf (5 + k)] = true.
Proof.
  cbn [distinct existsb BufId_eqb].
  repeat match goal with
  | |- context [Nat.eqb ?a ?b] =>
      replace (Nat.eqb a b) with false
        by (symmetry; apply Nat.eqb_neq; lia)
  end.
  reflexivity.
Qed.

Lemma postMessage_run g t w :
  postMessage g t w =
  if distinct t then (Val tt, emit (EvPost g t) w)
  else (Throw DataCloneError, w).
Proof. unfold postMessage. now destruct (distinct t). Qed.

(** *** Worlds in normal form *)

Lemma emit_start e w :
  emit e w = after w (HEAPF32 w) [] (pointer w) [e].
Proof.
  destruct w. unfold emit, after. cbn. now rewrite app_nil_r.
Qed.

Lemma set_pointer_start p w :
  set_pointer p w = after w (HEAPF32 w) [] p [].
Proof.
  destruct w. unfold set_pointer, after. cbn. now rewrite !app_nil_r.
Qed.

Lemma emit_after e w h bs p evs :
  emit e (after w h bs p evs) = after w h bs p (evs ++ [e]).
Proof. unfold emit, after. cbn. now rewrite app_assoc. Qed.

Lemma set_pointer_after p' w h bs p evs :
  set_pointer p' (after w h bs p evs) = after w h bs p' evs.
Proof. reflexivity. Qed.

Lemma set_HEAPF32_after h' w h bs p evs :
  set_HEAPF32 h' (after w h bs p evs) = after w h' bs p evs.
Proof. reflexivity. Qed.

Lemma set_hostBuffers_after bs' w h bs p evs :
  set_hostBuffers (hostBuffers (after w h bs p evs) ++ bs')
                  (after w h bs p evs)
  = after w h (bs ++ bs') p evs.
Proof. unfold set_hostBuffers, after. cbn. now rewrite app_assoc. Qed.

Lemma set_hostBuffers_after_nil bs' w h p evs :
  set_hostBuffers (hostBuffers w ++ bs') (after w h [] p evs)
  = after w h bs' p evs.
Proof. reflexivity. Qed.

Lemma copies_after w h bs p evs raw :
  copies (after w h bs p evs) raw = copies (set_HEAPF32 h w) raw.
Proof. reflexivity. Qed.

Lemma after_after w h0 bs0 p0 evs0 h bs p evs :
  after (after w h0 bs0 p0 evs0) h bs p evs
  = after w h (bs0 ++ bs) p (evs0 ++ evs).
Proof. unfold after. cbn. now rewrite !app_assoc. Qed.

Lemma hostBuffers_after_nil w h p evs :
  hostBuffers (after w h [] p evs) = hostBuffers w.
Proof. unfold after. cbn. apply app_nil_r. Qed.

(** Brings a world built from [w] by setters into the form [after w ...]
    and compares. *)
Ltac world_eq w :=
  repeat match goal with
         | |- context [emit ?e w] => rewrite (emit_start e w)
         | |- context [set_pointer ?p w] => rewrite (set_pointer_start p w)
         end;
  repeat (rewrite emit_after || rewrite set_pointer_after
          || rewrite set_HEAPF32_after || rewrite set_hostBuffers_after
          || rewrite set_hostBuffers_after_nil || rewrite copies_after);
  cbn [app]; try reflexivity.

(** One step of a sequence: run the first command with [tac], continue
    with the rest. *)
Ltac run_prim :=
  rewrite ?await_fetch_run, ?HEAPU8_set_run, ?instance_load_spz_run;
  repeat match goal with
         | H : _ = _ |- _ => rewrite H
         end;
  reflexivity.

Ltac bstep :=
  lazymatch goal with
  | |- @bind ?A ?B ?c ?k ?w = _ =>
      first
        [ refine (eq_trans (@bind_Val A B c k w _ _ _) _);
          [ solve [run_prim] | cbv beta iota; cbn [when negb] ]
        | refine (eq_trans (@bind_Throw A B c k w _ _ _) _);
          [ solve [run_prim] | ] ]
  end.

Section TryPaths.

Variables (env : Env) (url : string) (inst : WasmModule) (w : World).

Lemma load_try_fetch_rejects e :
  fetch env url = FetchReject e ->
  load_try env url inst w =
  (Throw e, after w (HEAPF32 w) [] (pointer w) [EvFetch url]).
Proof.
  intros Hf. unfold load_try. bstep. f_equal. world_eq w.
Qed.

Lemma load_try_bad_status status body :
  fetch env url = FetchResponse false status body ->
  load_try env url inst w =
  (Throw (FetchFailed status),
   after w (HEAPF32 w) [] (pointer w) [EvFetch url]).
Proof.
  intros Hf. unfold load_try. bstep. bstep. f_equal. world_eq w.
Qed.

Lemma load_try_body_rejects status e :
  fetch env url = FetchResponse true status (inl e) ->
  load_try env url inst w =
  (Throw e, after w (HEAPF32 w) [] (pointer w) [EvFetch url; EvRevoke url]).
Proof.
  intros Hf. unfold load_try. do 4 bstep. f_equal. world_eq w.
Qed.

Variables (status : Z) (bytes : list Byte.byte).
Hypothesis Hfetch : fetch env url = FetchResponse true status (inr bytes).

Lemma load_try_malloc_null :
  _malloc env inst (BYTES_PER_ELEMENT * Z.of_nat (List.length bytes))%Z = None ->
  load_try env url inst w =
  (Throw AllocFailed,
   after w (HEAPF32 w) [] None (fetched_events url bytes None)).
Proof.
  intros Hm. unfold load_try. do 6 bstep. rewrite Hm.
  bstep. unfold throw. f_equal.
  unfold fetched_events. world_eq w.
Qed.

Variable ptr : Z.
Hypothesis Hmalloc :
  _malloc env inst (BYTES_PER_ELEMENT * Z.of_nat (List.length bytes))%Z = Some ptr.

Lemma load_try_heapset_refused :
  heapset_ok env bytes (ptr / BYTES_PER_ELEMENT) = false ->
  load_try env url inst w =
  (Throw RangeError,
   after w (HEAPF32 w) [] (Some ptr) (fetched_events url bytes (Some ptr))).
Proof.
  intros Hs. unfold load_try. do 6 bstep. rewrite Hmalloc.
  do 2 bstep. f_equal.
  unfold fetched_events. world_eq w.
Qed.

Hypothesis Hset : heapset_ok env bytes (ptr / BYTES_PER_ELEMENT) = true.

Lemma load_try_decode_throws e :
  load_spz env inst ptr (Z.of_nat (List.length bytes)) bytes = DecodeThrow e ->
  load_try env url inst w =
  (Throw e,
   after w (HEAPF32 w) [] (Some ptr) (decoded_events url bytes ptr None)).
Proof.
  intros Hd. unfold load_try. do 6 bstep. rewrite Hmalloc.
  do 3 bstep. f_equal.
  unfold decoded_events, fetched_events. world_eq w.
Qed.

Variables (raw : Raw.t) (heap : Z -> float32).
Hypothesis Hdecode :
  load_spz env inst ptr (Z.of_nat (List.length bytes)) bytes =
  DecodeOk raw heap.

Lemma load_try_copy_throws :
  copies_ok env (List.length (hostBuffers w)) (vectors raw) = false ->
  exists bs,
    load_try env url inst w =
    (Throw RangeError,
     after w heap bs (Some ptr)
       (decoded_events url bytes ptr (Some raw)
        ++ [EvLog (LogRawNumPoints (Raw.numPoints raw))])).
Proof.
  intros Hc.
  destruct (createGaussianCloudFromRaw_fail env inst raw
              (after w heap [] (Some ptr)
                 (decoded_events url bytes ptr (Some raw)
                  ++ [EvLog (LogRawNumPoints (Raw.numPoints raw))])))
    as [bs Hrun]; [now rewrite hostBuffers_after_nil|].
  exists bs. unfold load_try. do 6 bstep. rewrite Hmalloc.
  do 4 bstep. world_eq w.
  unfold decoded_events, fetched_events in *.
  cbn [app] in *.
  bstep. f_equal. world_eq w.
Qed.

Lemma load_try_succeeds :
  copies_ok env (List.length (hostBuffers w)) (vectors raw) = true ->
  load_try env url inst w =
  (Val tt,
   after w heap (copies (set_HEAPF32 heap w) raw) (Some ptr)
     (decoded_events url bytes ptr (Some raw)
      ++ [EvLog (LogRawNumPoints (Raw.numPoints raw))]
      ++ posted_events (List.length (hostBuffers w)) raw)).
Proof.
  intros Hc. unfold load_try. do 6 bstep. rewrite Hmalloc.
  do 4 bstep.
  world_eq w.
  match goal with
  | |- bind (createGaussianCloudFromRaw env inst raw) _ ?w0 = _ =>
      assert (Hrun := createGaussianCloudFromRaw_ok env inst raw w0);
      rewrite hostBuffers_after_nil in Hrun; specialize (Hrun Hc)
  end.
  bstep. clear Hrun. do 2 bstep.
  rewrite postMessage_run.
  unfold envelope_of, transfer_of, arrays.
  cbn [map scene_at copy_at Cloud.positions Cloud.scales Cloud.rotations
       Cloud.alphas Cloud.colors Cloud.sh Cloud.numPoints Cloud.shDegree
       Cloud.antialiased Float32Array.buffer].
  rewrite distinct_fresh. f_equal.
  unfold decoded_events, fetched_events, posted_events, envelope_of,
    transfer_of, arrays, vectors, vf32_ptr.
 
  cbn [map scene_at copy_at Cloud.positions Cloud.scales Cloud.rotations
       Cloud.alphas Cloud.colors Cloud.sh Cloud.numPoints Cloud.shDegree
       Cloud.antialiased Float32Array.buffer].
  world_eq w.
Qed.

End TryPaths.

(** The [try] block ends the way [try_summary] says, in a world that
    differs from the start only in the engine memory, the host buffers,
    [pointer] and the trace. *)
Lemma load_try_summary env url inst w :
  exists heap bs,
    load_try env url inst w =
    (let '(r, p, evs) :=
       try_summary env url inst (List.length (hostBuffers w)) (pointer w) in
     (r, after w heap bs p evs)).
Proof.
  unfold try_summary.
  destruct (fetch env url) as [e|[|] status [e|bytes]] eqn:Hf.
  - exists (HEAPF32 w), []. now apply load_try_fetch_rejects.
  - exists (HEAPF32 w), []. now apply load_try_body_rejects with status.
  - cbv zeta.
    destruct (_malloc env inst _) as [ptr|] eqn:Hm.
    + destruct (heapset_ok env bytes (ptr / BYTES_PER_ELEMENT)) eqn:Hs.
      * destruct (load_spz env inst ptr _ bytes) as [e|raw heap] eqn:Hd.
        -- exists (HEAPF32 w), [].
           now apply load_try_decode_throws with status.
        -- destruct (copies_ok env _ (vectors raw)) eqn:Hc.
           ++ exists heap, (copies (set_HEAPF32 heap w) raw).
              now apply load_try_succeeds with status.
           ++ destruct (@load_try_copy_throws env url inst w status bytes
                          Hf ptr Hm Hs raw heap Hd Hc) as [bs Hrun].
              now exists heap, bs.
      * exists (HEAPF32 w), [].
        now apply load_try_heapset_refused with status.
    + exists (HEAPF32 w), []. now apply load_try_malloc_null with status.
  - exists (HEAPF32 w), []. now apply load_try_bad_status with (inl e).
  - exists (HEAPF32 w), []. now apply load_try_bad_status with (inr bytes).
Qed.

(** ** The [try] statement as a whole (lines 72-140) *)

Lemma try_summary_settles env url inst k p0 :
  fst (fst (try_summary env url inst k p0)) <> Suspended.
Proof.
  unfold try_summary.
  repeat match goal with
         | |- context [match ?x with _ => _ end] => destruct x
         | |- context [if ?x then _ else _] => destruct x
         end; cbn; discriminate.
Qed.

Lemma load_finally_run inst w h bs p evs :
  load_finally inst (after w h bs p evs) =
  (Val tt, after w h bs p (evs ++ finally_events p)).
Proof.
  unfold load_finally, finally_events, bind, get, _free, console_log,
    modify, ret.
  change (pointer (after w h bs p evs)) with p.
  destruct p as [ptr|].
  - rewrite !emit_after, <- app_assoc. reflexivity.
  - now rewrite app_nil_r.
Qed.

(** The statement never throws, and once the fetch and the body read
    have settled it runs to its end: whatever the block did, the error is
    logged and the [finally] clause runs. *)
Lemma guarded_run env url inst w :
  exists heap bs,
    try_catch_finally (load_try env url inst)
                      (fun e => console_error e) (load_finally inst) w =
    (Val tt,
     after w heap bs
       (snd (fst (try_summary env url inst (List.length (hostBuffers w))
                              (pointer w))))
       (guarded_events env url inst (List.length (hostBuffers w))
                       (pointer w))).
Proof.
  destruct (load_try_summary env url inst w) as (heap & bs & Hrun).
  exists heap, bs. unfold try_catch_finally, guarded_events.
  rewrite Hrun.
  pose proof (try_summary_settles env url inst
                (List.length (hostBuffers w)) (pointer w)) as Hs.
  destruct (try_summary _ _ _ _ _) as [[[[]|e|] p] evs]; cbn [fst snd] in *.
  - rewrite load_finally_run. reflexivity.
  - unfold console_error, modify. rewrite emit_after, load_finally_run.
    now rewrite <- app_assoc.
  - now destruct Hs.
Qed.

(** ** The singleton (lines 39-63) *)

Lemma spzwasm_calls_app tr1 tr2 :
  spzwasm_calls (tr1 ++ tr2) = spzwasm_calls tr1 + spzwasm_calls tr2.
Proof. unfold spzwasm_calls. now rewrite filter_app, length_app. Qed.

Lemma in_phase_calls ph w : in_phase ph w -> spzwasm_calls (trace w) <= 1.
Proof. destruct ph; cbn; intros (_ & _ & _ & ->); lia. Qed.

Lemma in_phase_world0 : in_phase Fresh world0.
Proof. cbn. auto. Qed.

(** [getInstance] in each phase: the promise it hands out and the world
    it leaves. *)
Ltac fields :=
  cbn [instance loadingPromise promises HEAPF32 hostBuffers pointer
       listening trace set_instance set_loadingPromise set_promises
       set_HEAPF32 set_hostBuffers set_pointer set_listening emit].

Lemma getInstance_phase ph w :
  in_phase ph w ->
  exists q w1,
    SpzSingleton.getInstance w = (Val q, w1)
    /\ in_phase (phase_call ph) w1
    /\ engine_frame w w1 (match ph with Fresh => [EvSpzwasm] | _ => [] end)
    /\ match ph with
       | Ready m => nth_error (promises w1) q = Some (Fulfilled m)
       | _ => q = 0 /\ loadingPromise w1 = Some q
       end.
Proof.
  unfold SpzSingleton.getInstance, engine_frame.
  destruct ph; cbn [in_phase phase_call];
    intros (Hi & Hl & Hp & Hc); rewrite Hi, ?Hl.
  - eexists _, _; split; [reflexivity|]. fields.
    rewrite Hp, spzwasm_calls_app, Hc. cbn. auto 10.
  - eexists _, _; split; [reflexivity|]. fields.
    rewrite app_nil_r. auto 10.
  - destruct Hp as [n Hp].
    eexists _, _; split; [reflexivity|]. fields.
    rewrite app_nil_r, Hp. repeat split; auto.
    + exists (S n). symmetry. apply (repeat_cons (S n)).
    + rewrite nth_error_app2 by lia. now rewrite Nat.sub_diag.
  - eexists _, _; split; [reflexivity|]. fields.
    rewrite app_nil_r. auto 10.
Qed.

Lemma engine_frame_refl w : engine_frame w w [].
Proof. unfold engine_frame. now rewrite app_nil_r. Qed.

Lemma engine_frame_trans w w1 w2 evs1 evs2 :
  engine_frame w w1 evs1 -> engine_frame w1 w2 evs2 ->
  engine_frame w w2 (evs1 ++ evs2).
Proof.
  unfold engine_frame.
  intros (-> & -> & -> & -> & ->) (-> & -> & -> & -> & ->).
  now rewrite app_assoc.
Qed.

Lemma executor_resume_noop p r w :
  nth_error (promises w) p <> Some Pending ->
  SpzSingleton.executor_resume p r w = w.
Proof.
  unfold SpzSingleton.executor_resume. intros H.
  destruct (nth_error (promises w) p) as [[| |]|]; congruence.
Qed.

(** The start-up settles while the singleton is loading. *)
Lemma executor_resume_loading r w :
  in_phase Loading w ->
  in_phase (phase_settle 0 r Loading) (SpzSingleton.executor_resume 0 r w)
  /\ engine_frame w (SpzSingleton.executor_resume 0 r w)
       [match r with inr _ => EvLog LogWasmLoaded | inl e => EvError e end].
Proof.
  cbn [in_phase]. intros (Hi & Hl & Hp & Hc).
  unfold SpzSingleton.executor_resume, settle, engine_frame.
  rewrite Hp. cbn [nth_error].
  destruct r as [e|m]; fields; rewrite Hp; cbn [nth_error list_set]; fields;
    cbn [phase_settle in_phase]; fields;
    rewrite spzwasm_calls_app, Hc; repeat split; auto.
  now exists 0.
Qed.

Lemma nth_error_repeat_inv {A} (x y : A) n p :
  nth_error (repeat x n) p = Some y -> y = x.
Proof.
  intros H. apply nth_error_In in H. now apply repeat_spec in H.
Qed.

(** In every phase, a settling start-up moves the singleton as
    [phase_settle] says. *)
Lemma executor_resume_phase ph p r w :
  in_phase ph w ->
  in_phase (phase_settle p r ph) (SpzSingleton.executor_resume p r w).
Proof.
  intros H. destruct ph.
  - rewrite executor_resume_noop; [assumption|].
    destruct H as (_ & _ & -> & _). now destruct p.
  - destruct p as [|p].
    + now apply executor_resume_loading.
    + rewrite executor_resume_noop; [assumption|].
      destruct H as (_ & _ & -> & _). now destruct p.
  - rewrite executor_resume_noop; [assumption|].
    destruct H as (_ & _ & [n ->] & _).
    intros Hn. apply nth_error_repeat_inv in Hn. discriminate.
  - rewrite executor_resume_noop; [assumption|].
    destruct H as (_ & _ & -> & _). destruct p as [|[|p]]; discriminate.
Qed.

(** Obtaining the engine, phase by phase. *)
Lemma acquire_engine_phase env ph w :
  in_phase ph w ->
  exists w1,
    acquire_engine env w = (fst (fst (acquire_result env ph)), w1)
    /\ in_phase (snd (fst (acquire_result env ph))) w1
    /\ engine_frame w w1 (snd (acquire_result env ph)).
Proof.
  intros H. unfold acquire_engine.
  destruct (getInstance_phase ph w H) as (q & w1 & Hget & Hph & Hfr & Hq).
  rewrite (bind_Val _ _ _ _ _ Hget). unfold await_instance.
  destruct ph; cbn [phase_call] in Hph.
  - destruct Hq as [-> _].
    destruct (executor_resume_loading (spzwasm env) w1 Hph) as [Hph2 Hfr2].
    pose proof (engine_frame_trans _ _ _ _ _ Hfr Hfr2) as Hfr3.
    unfold acquire_result.
    destruct (spzwasm env) as [e|m]; cbn [phase_settle] in Hph2;
      pose proof Hph2 as (_ & _ & Hp & _);
      [|destruct Hp as [n Hp]]; rewrite Hp; cbn [nth_error repeat fst snd];
      eexists; eauto.
  - destruct Hq as [-> _].
    destruct (executor_resume_loading (spzwasm env) w1 Hph) as [Hph2 Hfr2].
    pose proof (engine_frame_trans _ _ _ _ _ Hfr Hfr2) as Hfr3.
    unfold acquire_result.
    destruct (spzwasm env) as [e|m]; cbn [phase_settle] in Hph2;
      pose proof Hph2 as (_ & _ & Hp & _);
      [|destruct Hp as [n Hp]]; rewrite Hp; cbn [nth_error repeat fst snd];
      eexists; eauto.
  - rewrite executor_resume_noop by congruence. rewrite Hq.
    cbn [acquire_result fst snd]. eexists; eauto.
  - destruct Hq as [-> _].
    pose proof Hph as (_ & _ & Hp & _).
    rewrite executor_resume_noop by (rewrite Hp; discriminate).
    rewrite Hp. cbn [nth_error acquire_result fst snd]. eexists; eauto.
Qed.

(** In any world at all, obtaining the engine touches the singleton and
    the trace only, and adds engine events only. *)
Lemma getInstance_frame w :
  exists q w1 evs,
    SpzSingleton.getInstance w = (Val q, w1)
    /\ engine_frame w w1 evs /\ forallb is_engine_event evs = true.
Proof.
  unfold SpzSingleton.getInstance, engine_frame.
  destruct (instance w); [|destruct (loadingPromise w)].
  - eexists _, _, []; split; [reflexivity|]. fields.
    rewrite app_nil_r. auto 10.
  - eexists _, _, []; split; [reflexivity|]. fields.
    rewrite app_nil_r. auto 10.
  - eexists _, _, [EvSpzwasm]; split; [reflexivity|]. fields. auto 10.
Qed.

Lemma settle_frame p s w : engine_frame w (settle p s w) [].
Proof.
  unfold settle, engine_frame.
  destruct (nth_error (promises w) p) as [[| |]|]; fields;
    rewrite app_nil_r; auto.
Qed.

Lemma executor_resume_frame p r w :
  exists evs,
    engine_frame w (SpzSingleton.executor_resume p r w) evs
    /\ forallb is_engine_event evs = true.
Proof.
  unfold SpzSingleton.executor_resume.
  destruct (nth_error (promises w) p) as [[| |]|];
    try (exists []; split; [apply engine_frame_refl|reflexivity]).
  destruct r as [e|m].
  - exists ([EvError e] ++ []). split; [|reflexivity].
    eapply engine_frame_trans; [|apply settle_frame].
    unfold engine_frame. fields. auto.
  - exists ([EvLog LogWasmLoaded] ++ []). split; [|reflexivity].
    eapply engine_frame_trans; [|apply settle_frame].
    unfold engine_frame. fields. auto.
Qed.

Lemma acquire_engine_frame env w :
  exists evs,
    engine_frame w (snd (acquire_engine env w)) evs
    /\ forallb is_engine_event evs = true.
Proof.
  unfold acquire_engine.
  destruct (getInstance_frame w) as (q & w1 & evs1 & Hget & Hfr1 & He1).
  rewrite (bind_Val _ _ _ _ _ Hget). unfold await_instance.
  destruct (executor_resume_frame q (spzwasm env) w1)
    as (evs2 & Hfr2 & He2).
  exists (evs1 ++ evs2). split.
  - destruct (nth_error _ q) as [[| |]|]; cbn [snd];
      now apply engine_frame_trans with w1.
  - now rewrite forallb_app, He1, He2.
Qed.

(** ** [load] as a whole (lines 66-141) *)

Lemma load_run env url w :
  load env url w =
  match acquire_engine env (set_pointer None w) with
  | (Val inst, w1) =>
      try_catch_finally (load_try env url inst)
        (fun e => console_error e) (load_finally inst)
        (emit (EvLog (LogInstance inst)) w1)
  | (Throw e, w1) => (Throw e, w1)
  | (Suspended, w1) => (Suspended, w1)
  end.
Proof.
  unfold load, acquire_engine. bstep. unfold bind.
  destruct (SpzSingleton.getInstance _) as [[q|e|] w1]; reflexivity.
Qed.

(** Once the engine is there, [load] resolves: the world it leaves is the
    one the engine was obtained in, plus the events of the [try]
    statement. *)
Lemma load_with_engine env url w inst w1 :
  acquire_engine env (set_pointer None w) = (Val inst, w1) ->
  exists heap bs,
    load env url w =
    (Val tt,
     after w1 heap bs
       (snd (fst (try_summary env url inst (List.length (hostBuffers w))
                              None)))
       (EvLog (LogInstance inst)
        :: guarded_events env url inst (List.length (hostBuffers w)) None)).
Proof.
  intros Hacq. rewrite load_run, Hacq.
  destruct (acquire_engine_frame env (set_pointer None w))
    as (evs & (_ & Hb & Hp & _) & _).
  rewrite Hacq in Hb, Hp.
  cbn [snd hostBuffers pointer set_pointer] in Hb, Hp.
  rewrite emit_start.
  destruct (guarded_run env url inst
              (after w1 (HEAPF32 w1) [] (pointer w1)
                 [EvLog (LogInstance inst)])) as (heap & bs & Hrun).
  rewrite Hrun. rewrite hostBuffers_after_nil, Hb.
  change (pointer (after w1 (HEAPF32 w1) [] (pointer w1)
                     [EvLog (LogInstance inst)])) with (pointer w1).
  rewrite Hp. exists heap, bs. f_equal. now rewrite after_after.
Qed.

(** ** Measures on the events of a call *)

Lemma new_events_app w w1 evs :
  trace w1 = trace w ++ evs -> new_events w w1 = evs.
Proof.
  unfold new_events. intros ->.
  rewrite skipn_app, skipn_all, Nat.sub_diag. reflexivity.
Qed.

Lemma trace_after w h bs p evs : trace (after w h bs p evs) = trace w ++ evs.
Proof. reflexivity. Qed.

Lemma engine_events_silent evs :
  forallb is_engine_event evs = true ->
  posts evs = [] /\ revokes evs = [] /\ acquired evs = []
  /\ released evs = [].
Proof.
  induction evs as [|e evs IH]; [now auto|].
  cbn [forallb]. intros H. apply andb_prop in H. destruct H as [He H].
  destruct (IH H) as (Hp & Hr & Ha & Hf).
  unfold posts, revokes, acquired, released in *.
  cbn [filter flat_map]. rewrite Hp, Hr, Ha, Hf.
  destruct e as [| [] | | | | | | | | |]; try discriminate He; now auto.
Qed.

(** Splits on the answers of the collaborators, in the order the [try]
    block asks for them. *)
Ltac summary_cases env url inst :=
  unfold guarded_events, try_summary;
  destruct (fetch env url) as [?e|[|] ?status [?e|?bytes]] eqn:?Hfetch;
  cbv zeta;
  [ | | destruct (_malloc env inst _) as [?ptr|] eqn:?Hmalloc;
        [ destruct (heapset_ok env _ _) eqn:?Hset;
          [ destruct (load_spz env inst _ _ _) as [?e|?raw ?heap] eqn:?Hdecode;
            [ | destruct (copies_ok env _ (vectors _)) eqn:?Hcopies ]
          | ]
        | ]
    | | ];
  unfold fetched_events, decoded_events, posted_events, finally_events,
    vectors;
  cbn [app map fst snd].

Ltac measure :=
  unfold posts, revokes, acquired, released, spzwasm_calls;
  cbn [filter flat_map app List.length is_post is_revoke is_spzwasm
       acquired_by released_by map].

(** The engine start-up is never invoked from inside the [try]
    statement. *)
Lemma guarded_no_spzwasm env url inst k p0 :
  spzwasm_calls (guarded_events env url inst k p0) = 0.
Proof.
  summary_cases env url inst; destruct p0; measure; reflexivity.
Qed.

(** The object URL is revoked exactly when the response is there and its
    status is a success. *)
Lemma guarded_revokes env url inst k p0 :
  revokes (guarded_events env url inst k p0) =
  match fetch env url with
  | FetchResponse true _ _ => [EvRevoke url]
  | _ => []
  end.
Proof.
  summary_cases env url inst; destruct p0; measure; reflexivity.
Qed.

(** A message is posted exactly when the [try] block completes. *)
Lemma guarded_posts env url inst k p0 :
  match fst (fst (try_summary env url inst k p0)) with
  | Val _ =>
      exists raw,
        posts (guarded_events env url inst k p0) =
        [EvPost (envelope_of (scene_at k raw)) (transfer_of (scene_at k raw))]
  | Throw e =>
      posts (guarded_events env url inst k p0) = []
      /\ In (EvError e) (guarded_events env url inst k p0)
  | Suspended => False
  end.
Proof.
  summary_cases env url inst; try (destruct p0); measure;
    try (split; [reflexivity|]; cbn [In];
         solve [repeat (first [now left | right])]).
  all: eexists; reflexivity.
Qed.

(** * The claims *)

Lemma length_elements_view w v :
  List.length (elements w (view v)) = vec_size v.
Proof.
  unfold elements, view. cbn [Float32Array.buffer Float32Array.length].
  now rewrite length_map, length_seq.
Qed.

Lemma copy_at_host_copy w raw i v :
  nth_error (vectors raw) i = Some v ->
  host_copy w (set_hostBuffers (hostBuffers w ++ copies w raw) w)
            (copy_at (i + List.length (hostBuffers w)) v) v.
Proof.
  intros Hi.
  assert (Hlt : i < 6).
  { change 6 with (List.length (vectors raw)).
    apply nth_error_Some. congruence. }
  assert (Hc : nth_error (copies w raw) i = Some (elements w (view v))).
  { unfold copies. now rewrite nth_error_map, Hi. }
  exists (i + List.length (hostBuffers w)).
  cbn [copy_at Float32Array.buffer hostBuffers set_hostBuffers].
  rewrite length_app.
  assert (Hn : nth_error (hostBuffers w ++ copies w raw)
                         (i + List.length (hostBuffers w))
               = Some (elements w (view v))).
  { rewrite nth_error_app2 by lia. now rewrite Nat.add_sub. }
  repeat split; try (cbn; lia); [exact Hn|].
  intros w2 Hw2. unfold elements at 1.
  cbn [copy_at Float32Array.buffer Float32Array.byteOffset
       Float32Array.length].
  rewrite Hw2. cbn [hostBuffers set_hostBuffers].
  rewrite (nth_error_nth _ _ _ Hn). cbn [Z.div Z.to_nat skipn].
  rewrite <- (length_elements_view w v). apply firstn_all.
Qed.

Lemma fresh_buffers_NoDup k :
  NoDup [HostBuf k; HostBuf (1 + k); HostBuf (2 + k); HostBuf (3 + k);
         HostBuf (4 + k); HostBuf (5 + k)].
Proof.
  repeat (constructor;
          [ intros Hin; cbn [In] in Hin;
            repeat (destruct Hin as [Hin|Hin]; [injection Hin; lia|]);
            exact Hin
          | ]).
  constructor.
Qed.

(** C2.  On every successful decode each of the six arrays of the Scene
    is a copy on a buffer the host allocated during the call: the buffer
    is new, it is none of the other five and not the engine memory, it
    holds element for element what the view over the engine vector showed
    when the copy was made, and the array reads the same floats in every
    later world that keeps the host buffers, whatever happens to the
    engine memory. *)
Theorem scene_arrays_are_host_copies env m raw w gc w' :
  createGaussianCloudFromRaw env m raw w = (Val gc, w') ->
  Forall2 (host_copy w w') (arrays gc) (vectors raw)
  /\ NoDup (map Float32Array.buffer (arrays gc))
  /\ ~ In WasmMemory (map Float32Array.buffer (arrays gc)).
Proof.
  intros Hrun.
  destruct (createGaussianCloudFromRaw_cases env m raw w)
    as [[_ Hok]|[_ [bs Hfail]]]; [|congruence].
  rewrite Hok in Hrun. injection Hrun as <- <-.
  split; [|split].
  - unfold arrays, scene_at.
    cbn [Cloud.positions Cloud.scales Cloud.rotations Cloud.alphas
         Cloud.colors Cloud.sh].
    unfold vectors at 1.
    repeat constructor.
    + now apply (copy_at_host_copy w raw 0).
    + now apply (copy_at_host_copy w raw 1).
    + now apply (copy_at_host_copy w raw 2).
    + now apply (copy_at_host_copy w raw 3).
    + now apply (copy_at_host_copy w raw 4).
    + now apply (copy_at_host_copy w raw 5).
  - apply fresh_buffers_NoDup.
  - cbn. intuition discriminate.
Qed.

Lemma scene_arrays_are_host_copies_witness :
  let run := createGaussianCloudFromRaw env_ok 7 sample_raw world0 in
  run = (Val (scene_at 0 sample_raw), snd run)
  /\ Forall2 (host_copy world0 (snd run))
             (arrays (scene_at 0 sample_raw)) (vectors sample_raw)
  /\ NoDup (map Float32Array.buffer (arrays (scene_at 0 sample_raw)))
  /\ ~ In WasmMemory
          (map Float32Array.buffer (arrays (scene_at 0 sample_raw))).
Proof.
  cbv zeta. split; [reflexivity|].
  apply (scene_arrays_are_host_copies env_ok 7 sample_raw world0).
  reflexivity.
Defined.

(** C7, as stated, fails.  The engine hands out a handle that announces
    one point and six empty vectors: the decode succeeds, the Scene has
    [numPoints = 1] and a [positions] array of length 0, and [load] posts
    it. *)
Lemma short_scene_is_returned :
  (exists gc w',
      createGaussianCloudFromRaw env_short 7 short_raw world0 = (Val gc, w')
      /\ forall shCoeffCount,
           ~ stride_invariant shCoeffCount (Cloud.numPoints gc)
               (Cloud.shDegree gc) (map Float32Array.length (arrays gc)))
  /\ (exists g t,
         posts (trace (snd (load env_short "blob:1" world0))) = [EvPost g t]
         /\ Envelope.numPoints g = 1).
Proof.
  split.
  - eexists _, _. split; [reflexivity|].
    intros f H. unfold stride_invariant in H. cbn in H. discriminate H.
  - exists (envelope_of (scene_at 0 short_raw)),
      (transfer_of (scene_at 0 short_raw)).
    split; [vm_compute|]; reflexivity.
Qed.

(** C7, amended.  On every successful decode [numPoints] and [shDegree]
    are the engine's and each array has exactly as many elements as the
    engine reports for its vector.  Nothing is checked against
    [numPoints]: the decode succeeds as soon as the six copies go through,
    so the six length equalities hold for the Scene exactly when they hold
    for what the engine handed out. *)
Theorem scene_lengths_follow_engine env m raw w gc w' :
  createGaussianCloudFromRaw env m raw w = (Val gc, w') ->
  copies_ok env (List.length (hostBuffers w)) (vectors raw) = true
  /\ Cloud.numPoints gc = Raw.numPoints raw
  /\ Cloud.shDegree gc = Raw.shDegree raw
  /\ map Float32Array.length (arrays gc) = map vec_size (vectors raw)
  /\ forall shCoeffCount,
       stride_invariant shCoeffCount (Cloud.numPoints gc) (Cloud.shDegree gc)
         (map Float32Array.length (arrays gc))
       <-> stride_invariant shCoeffCount (Raw.numPoints raw)
             (Raw.shDegree raw) (map vec_size (vectors raw)).
Proof.
  intros Hrun.
  destruct (createGaussianCloudFromRaw_cases env m raw w)
    as [[Hc Hok]|[_ [bs Hfail]]]; [|congruence].
  rewrite Hok in Hrun. injection Hrun as <- <-.
  repeat split; auto.
Qed.

Lemma scene_lengths_follow_engine_witness :
  let run := createGaussianCloudFromRaw env_ok 7 sample_raw world0 in
  run = (Val (scene_at 0 sample_raw), snd run)
  /\ map Float32Array.length (arrays (scene_at 0 sample_raw)) = [3; 3; 4; 1; 3; 0]
  /\ stride_invariant (fun _ => 0) 1 0
       (map Float32Array.length (arrays (scene_at 0 sample_raw))).
Proof.
  cbv zeta. split; [reflexivity|].
  destruct (scene_lengths_follow_engine env_ok 7 sample_raw world0
              (scene_at 0 sample_raw)
              (snd (createGaussianCloudFromRaw env_ok 7 sample_raw world0))
              eq_refl) as (_ & _ & _ & Hlen & Hiff).
  split; [exact Hlen|].
  apply (Hiff (fun _ => 0)). reflexivity.
Defined.

Lemma posts_app l1 l2 : posts (l1 ++ l2) = posts l1 ++ posts l2.
Proof. apply filter_app. Qed.

Lemma revokes_app l1 l2 : revokes (l1 ++ l2) = revokes l1 ++ revokes l2.
Proof. apply filter_app. Qed.

Lemma acquired_app l1 l2 : acquired (l1 ++ l2) = acquired l1 ++ acquired l2.
Proof. apply flat_map_app. Qed.

Lemma released_app l1 l2 : released (l1 ++ l2) = released l1 ++ released l2.
Proof. apply flat_map_app. Qed.

(** The events of a call to [load] that obtained the engine: engine
    events, the log of line 70, the [try] statement. *)
Lemma load_new_events env url w inst w1 :
  acquire_engine env (set_pointer None w) = (Val inst, w1) ->
  exists evs0,
    forallb is_engine_event evs0 = true
    /\ trace w1 = trace w ++ evs0
    /\ new_events w (snd (load env url w)) =
       evs0 ++ EvLog (LogInstance inst)
               :: guarded_events env url inst (List.length (hostBuffers w))
                                 None.
Proof.
  intros Hacq.
  destruct (acquire_engine_frame env (set_pointer None w))
    as (evs0 & (_ & _ & _ & _ & Htr) & Hev).
  rewrite Hacq in Htr. cbn [snd trace set_pointer] in Htr.
  destruct (load_with_engine env url w inst w1 Hacq) as (heap & bs & Hrun).
  exists evs0. repeat split; auto.
  apply new_events_app. rewrite Hrun. cbn [snd].
  rewrite trace_after, Htr. now rewrite <- app_assoc.
Qed.

(** The guard of line 85 at the one value it tests for.  Were [_malloc]
    to answer [null], the [try] block would throw the allocation error;
    [load] logs it and resolves, having changed neither the host buffers
    nor the engine memory, with [pointer] still [null]: the decode entry
    point is not reached, no message is posted and no engine buffer is
    freed.  An allocator compiled to WebAssembly answers with a number,
    never with [null]: its failure value is 0, which is run further
    down. *)
Lemma malloc_null_fails_cleanly env url w inst w1 status bytes :
  acquire_engine env (set_pointer None w) = (Val inst, w1) ->
  fetch env url = FetchResponse true status (inr bytes) ->
  _malloc env inst (BYTES_PER_ELEMENT * Z.of_nat (List.length bytes)) = None ->
  let w' := snd (load env url w) in
  fst (load_try env url inst (emit (EvLog (LogInstance inst)) w1))
  = Throw AllocFailed
  /\ fst (load env url w) = Val tt
  /\ trace w' =
     trace w1 ++ EvLog (LogInstance inst)
                 :: fetched_events url bytes None ++ [EvError AllocFailed]
  /\ pointer w' = None
  /\ hostBuffers w' = hostBuffers w
  /\ HEAPF32 w' = HEAPF32 w
  /\ released (new_events w w') = []
  /\ acquired (new_events w w') = []
  /\ posts (new_events w w') = [].
Proof.
  intros Hacq Hfetch Hmalloc w'.
  destruct (acquire_engine_frame env (set_pointer None w))
    as (evs0 & (Hh & Hb & _ & _ & Htr) & Hev).
  rewrite Hacq in Hh, Hb, Htr.
  cbn [snd trace hostBuffers HEAPF32 set_pointer] in Hh, Hb, Htr.
  pose proof (load_try_malloc_null env url inst
                (emit (EvLog (LogInstance inst)) w1) status bytes
                Hfetch Hmalloc) as Htry.
  assert (Hrun : load env url w =
                 (Val tt,
                  after w1 (HEAPF32 w1) [] None
                    (EvLog (LogInstance inst)
                     :: fetched_events url bytes None
                        ++ [EvError AllocFailed]))).
  { rewrite load_run, Hacq. unfold try_catch_finally. rewrite Htry.
    unfold console_error, modify.
    rewrite emit_after, load_finally_run.
    rewrite emit_start, after_after. cbn [finally_events app].
    now rewrite app_nil_r. }
  destruct (engine_events_silent evs0 Hev) as (Hp0 & _ & Ha0 & Hr0).
  assert (Hnew : new_events w w' =
                 evs0 ++ EvLog (LogInstance inst)
                         :: fetched_events url bytes None
                            ++ [EvError AllocFailed]).
  { apply new_events_app. subst w'. rewrite Hrun. cbn [snd].
    rewrite trace_after, Htr. now rewrite <- app_assoc. }
  subst w'. rewrite Hnew, Htry, Hrun. cbn [fst snd].
  rewrite released_app, acquired_app, posts_app, Hp0, Ha0, Hr0.
  unfold after. fields. rewrite app_nil_r.
  repeat split; auto.
Qed.

Lemma malloc_null_fails_cleanly_witness :
  let w' := snd (load env_no_memory "blob:1" world0) in
  fst (load env_no_memory "blob:1" world0) = Val tt
  /\ trace w' =
     [ EvSpzwasm; EvLog LogWasmLoaded; EvLog (LogInstance 7);
       EvFetch "blob:1"; EvRevoke "blob:1"; EvLog (LogDataLength 2);
       EvMalloc 2 None; EvError AllocFailed ]
  /\ released (new_events world0 w') = []
  /\ posts (new_events world0 w') = [].
Proof.
  destruct (malloc_null_fails_cleanly env_no_memory "blob:1" world0 7
              (snd (acquire_engine env_no_memory (set_pointer None world0)))
              200 sample_bytes eq_refl eq_refl eq_refl)
    as (_ & Hval & Htr & _ & _ & _ & Hrel & _ & Hpost).
  cbv zeta. repeat split; assumption.
Defined.

(** C5.  The allocator's failure value is the number 0, and line 85
    compares with [null] only, so the guard lets it through.  With
    [_malloc] answering 0 no allocation error is thrown or logged: the
    bytes are stored at address 0, the decode entry point runs on them,
    the scene is copied and posted, [pointer] ends as 0 and the [finally]
    clause frees address 0 (the last [EvFree], before the log of line
    138; the one before it frees the empty [sh] vector). *)
Lemma malloc_zero_goes_on :
  let run := load env_malloc_zero "blob:1" world0 in
  fst run = Val tt
  /\ trace (snd run) =
     [ EvSpzwasm; EvLog LogWasmLoaded; EvLog (LogInstance 7);
       EvFetch "blob:1"; EvRevoke "blob:1"; EvLog (LogDataLength 2);
       EvMalloc 2 (Some 0%Z); EvHeapSet sample_bytes 0;
       EvLoadSpz 0 2 (Some sample_raw); EvLog (LogRawNumPoints 1);
       EvFree 64; EvFree 80; EvFree 96; EvFree 112; EvFree 128; EvFree 0;
       EvLog (LogCloudNumPoints 1);
       EvPost (envelope_of (scene_at 0 sample_raw))
              (transfer_of (scene_at 0 sample_raw));
       EvFree 0; EvLog LogDone ]
  /\ errors (trace (snd run)) = []
  /\ List.length (posts (trace (snd run))) = 1
  /\ pointer (snd run) = Some 0%Z.
Proof. vm_compute. repeat split. Qed.

(** The run of [load] when every collaborator answers well. *)
Lemma load_success_run env url w inst w1 status bytes ptr raw heap :
  acquire_engine env (set_pointer None w) = (Val inst, w1) ->
  fetch env url = FetchResponse true status (inr bytes) ->
  _malloc env inst (BYTES_PER_ELEMENT * Z.of_nat (List.length bytes))
  = Some ptr ->
  heapset_ok env bytes (ptr / BYTES_PER_ELEMENT) = true ->
  load_spz env inst ptr (Z.of_nat (List.length bytes)) bytes
  = DecodeOk raw heap ->
  copies_ok env (List.length (hostBuffers w)) (vectors raw) = true ->
  load env url w =
  (Val tt,
   after w1 heap (copies (set_HEAPF32 heap w) raw) (Some ptr)
     (EvLog (LogInstance inst)
      :: (decoded_events url bytes ptr (Some raw)
          ++ [EvLog (LogRawNumPoints (Raw.numPoints raw))]
          ++ posted_events (List.length (hostBuffers w)) raw)
         ++ [EvFree ptr; EvLog LogDone])).
Proof.
  intros Hacq Hfetch Hmalloc Hset Hdecode Hcopies.
  destruct (acquire_engine_frame env (set_pointer None w))
    as (evs0 & (_ & Hb & _ & _ & _) & _).
  rewrite Hacq in Hb. cbn [snd hostBuffers set_pointer] in Hb.
  rewrite load_run, Hacq. unfold try_catch_finally.
  rewrite (load_try_succeeds env url inst _ status bytes Hfetch ptr Hmalloc
             Hset raw heap Hdecode)
    by (cbn [hostBuffers emit]; now rewrite Hb).
  rewrite load_finally_run. cbn [hostBuffers emit]. rewrite Hb.
  rewrite emit_start, after_after. reflexivity.
Qed.

(** C6.  On a successful load exactly one message is posted.  Its six
    array fields are the backing buffers of the six arrays of the Scene
    that [createGaussianCloudFromRaw] built, the transfer list names those
    same six buffers, the three scalars are the Scene's and the engine's,
    and the host holds the same buffers at the end of the call as right
    after the decode copy: building and posting the envelope allocates
    nothing. *)
Theorem envelope_moves_scene_buffers
    env url w inst w1 status bytes ptr raw heap wc gc wc' :
  acquire_engine env (set_pointer None w) = (Val inst, w1) ->
  fetch env url = FetchResponse true status (inr bytes) ->
  _malloc env inst (BYTES_PER_ELEMENT * Z.of_nat (List.length bytes))
  = Some ptr ->
  heapset_ok env bytes (ptr / BYTES_PER_ELEMENT) = true ->
  load_spz env inst ptr (Z.of_nat (List.length bytes)) bytes
  = DecodeOk raw heap ->
  hostBuffers wc = hostBuffers w ->
  HEAPF32 wc = heap ->
  createGaussianCloudFromRaw env inst raw wc = (Val gc, wc') ->
  let w' := snd (load env url w) in
  exists g t,
    posts (new_events w w') = [EvPost g t]
    /\ envelope_buffers g = map Float32Array.buffer (arrays gc)
    /\ t = map Float32Array.buffer (arrays gc)
    /\ Envelope.numPoints g = Cloud.numPoints gc
    /\ Envelope.shDegree g = Cloud.shDegree gc
    /\ Envelope.antialiased g = Cloud.antialiased gc
    /\ Cloud.numPoints gc = Raw.numPoints raw
    /\ Cloud.shDegree gc = Raw.shDegree raw
    /\ Cloud.antialiased gc = Raw.antialiased raw
    /\ hostBuffers w' = hostBuffers wc'.
Proof.
  intros Hacq Hfetch Hmalloc Hset Hdecode Hhb Hheap Hcopy w'.
  destruct (createGaussianCloudFromRaw_cases env inst raw wc)
    as [[Hc Hok]|[_ [bs Hfail]]]; [|congruence].
  rewrite Hok in Hcopy. injection Hcopy as <- <-.
  rewrite Hhb in *.
  destruct (acquire_engine_frame env (set_pointer None w))
    as (evs0 & (_ & Hb & _ & _ & Htr) & Hev).
  rewrite Hacq in Hb, Htr. cbn [snd trace hostBuffers set_pointer] in Hb, Htr.
  pose proof (load_success_run env url w inst w1 status bytes ptr raw heap
                Hacq Hfetch Hmalloc Hset Hdecode Hc) as Hrun.
  destruct (engine_events_silent evs0 Hev) as (Hp0 & _).
  exists (envelope_of (scene_at (List.length (hostBuffers w)) raw)),
    (transfer_of (scene_at (List.length (hostBuffers w)) raw)).
  subst w'. rewrite Hrun. cbn [snd].
  split.
  - erewrite new_events_app
      by (rewrite trace_after, Htr, <- app_assoc; reflexivity).
    rewrite posts_app, Hp0. unfold posted_events, decoded_events,
      fetched_events, vectors.
    cbn [app map]. reflexivity.
  - repeat split.
    unfold after. fields. rewrite Hb. f_equal.
    unfold copies, elements. cbn [view Float32Array.buffer].
    now rewrite Hheap.
Qed.

Lemma envelope_moves_scene_buffers_witness :
  let w' := snd (load env_ok "blob:1" world0) in
  let copied :=
    snd (createGaussianCloudFromRaw env_ok 7 sample_raw
           (set_HEAPF32 sample_heap world0)) in
  exists g t,
    posts (new_events world0 w') = [EvPost g t]
    /\ envelope_buffers g = map Float32Array.buffer (arrays (scene_at 0 sample_raw))
    /\ t = map Float32Array.buffer (arrays (scene_at 0 sample_raw))
    /\ hostBuffers w' = hostBuffers copied.
Proof.
  destruct (envelope_moves_scene_buffers env_ok "blob:1" world0 7
              (snd (acquire_engine env_ok (set_pointer None world0)))
              200 sample_bytes 16 sample_raw sample_heap
              (set_HEAPF32 sample_heap world0) (scene_at 0 sample_raw)
              (snd (createGaussianCloudFromRaw env_ok 7 sample_raw
                      (set_HEAPF32 sample_heap world0)))
              eq_refl eq_refl eq_refl eq_refl eq_refl eq_refl eq_refl
              eq_refl)
    as (g & t & Hp & Hg & Ht & _ & _ & _ & _ & _ & _ & Hhb).
  exists g, t. cbv zeta. repeat split; assumption.
Defined.

(** C8, as stated, fails.  The server answers 404: the URL is fetched,
    the error is logged, and the URL is never revoked. *)
Lemma url_kept_after_404 :
  let tr := trace (snd (load env_404 "blob:1" world0)) in
  In (EvFetch "blob:1") tr
  /\ In (EvError (FetchFailed 404)) tr
  /\ revokes tr = [].
Proof.
  vm_compute. repeat split; auto 10.
Qed.

Lemma guarded_revoke_position env url inst k p0 status body :
  fetch env url = FetchResponse true status body ->
  exists rest,
    guarded_events env url inst k p0 = EvFetch url :: EvRevoke url :: rest
    /\ revokes rest = [].
Proof.
  intros H. summary_cases env url inst; try discriminate H;
    destruct p0; eexists; (split; [reflexivity|measure; reflexivity]).
Qed.

(** C8, amended.  [load] revokes the object URL exactly when it obtained
    the engine and the fetch resolved with a success status; it then does
    so once, right after the status check and before the body is read.
    When the engine is not obtained, when [fetch] rejects or when the
    status is not a success, the URL is not revoked. *)
Theorem object_url_revoked_after_ok_response env url w :
  let w' := snd (load env url w) in
  revokes (new_events w w') =
  match fst (acquire_engine env (set_pointer None w)), fetch env url with
  | Val _, FetchResponse true _ _ => [EvRevoke url]
  | _, _ => []
  end
  /\ forall inst w1 status body,
       acquire_engine env (set_pointer None w) = (Val inst, w1) ->
       fetch env url = FetchResponse true status body ->
       exists rest,
         new_events w1 w' =
         EvLog (LogInstance inst) :: EvFetch url :: EvRevoke url :: rest
         /\ revokes rest = [].
Proof.
  intros w'. subst w'.
  destruct (acquire_engine env (set_pointer None w)) as [[inst|e|] w1] eqn:Hacq.
  - destruct (load_new_events env url w inst w1 Hacq)
      as (evs0 & Hev & Htr & Hnew).
    destruct (engine_events_silent evs0 Hev) as (_ & Hr0 & _).
    split.
    + rewrite Hnew, revokes_app, Hr0. cbn [fst app].
      change (revokes (EvLog (LogInstance inst) :: ?l)) with (revokes l).
      rewrite guarded_revokes.
      now destruct (fetch env url) as [|[|]].
    + intros inst' w1' status body Heq Hfetch.
      injection Heq as <- <-.
      destruct (guarded_revoke_position env url inst
                  (List.length (hostBuffers w)) None status body Hfetch)
        as (rest & Hg & Hrest).
      exists rest. split; [|exact Hrest].
      destruct (load_with_engine env url w inst w1 Hacq)
        as (heap & bs & Hrun).
      apply new_events_app. rewrite Hrun. cbn [snd].
      now rewrite trace_after, Hg.
  - split; [|discriminate].
    destruct (acquire_engine_frame env (set_pointer None w))
      as (evs0 & (_ & _ & _ & _ & Htr) & Hev).
    rewrite Hacq in Htr. cbn [snd trace set_pointer] in Htr.
    rewrite load_run, Hacq. cbn [fst snd].
    rewrite (new_events_app _ _ _ Htr).
    now destruct (engine_events_silent evs0 Hev) as (_ & -> & _).
  - split; [|discriminate].
    destruct (acquire_engine_frame env (set_pointer None w))
      as (evs0 & (_ & _ & _ & _ & Htr) & Hev).
    rewrite Hacq in Htr. cbn [snd trace set_pointer] in Htr.
    rewrite load_run, Hacq. cbn [fst snd].
    rewrite (new_events_app _ _ _ Htr).
    now destruct (engine_events_silent evs0 Hev) as (_ & -> & _).
Qed.

Lemma object_url_revoked_after_ok_response_witness :
  let w1 := snd (acquire_engine env_ok (set_pointer None world0)) in
  let w' := snd (load env_ok "blob:1" world0) in
  exists rest,
    new_events w1 w' =
    EvLog (LogInstance 7) :: EvFetch "blob:1" :: EvRevoke "blob:1" :: rest
    /\ revokes rest = [].
Proof.
  exact (proj2 (object_url_revoked_after_ok_response env_ok "blob:1" world0)
               7 (snd (acquire_engine env_ok (set_pointer None world0)))
               200%Z (inr sample_bytes) eq_refl eq_refl).
Defined.

(** ** The singleton under any schedule *)

Lemma run_singleton_phase evs : forall ph w,
  in_phase ph w ->
  in_phase (fold_left phase_event evs ph) (snd (run_singleton evs w)).
Proof.
  induction evs as [|[|p r] evs IH]; intros ph w H; cbn [fold_left].
  - exact H.
  - cbn [run_singleton phase_event].
    destruct (getInstance_phase ph w H) as (q & w1 & Hget & Hph & _).
    rewrite Hget.
    specialize (IH _ _ Hph).
    now destruct (run_singleton evs w1).
  - cbn [run_singleton phase_event].
    apply IH. now apply executor_resume_phase.
Qed.

(** While the start-up is in flight every caller is handed promise 0 and
    nothing else happens. *)
Lemma loading_calls n w :
  in_phase Loading w -> run_singleton (repeat Call n) w = (repeat 0 n, w).
Proof.
  intros (Hi & Hl & _). induction n as [|n IH]; [reflexivity|].
  cbn [repeat run_singleton].
  unfold SpzSingleton.getInstance at 1. now rewrite Hi, Hl, IH.
Qed.

(** After a failed start-up nothing moves any more: every caller is
    handed promise 0 and the world stays as it is. *)
Lemma failed_run e evs : forall w,
  in_phase (Failed e) w ->
  snd (run_singleton evs w) = w
  /\ Forall (fun q => q = 0) (fst (run_singleton evs w)).
Proof.
  induction evs as [|[|p r] evs IH]; intros w H; cbn [run_singleton].
  - now split.
  - pose proof H as (Hi & Hl & _).
    unfold SpzSingleton.getInstance at 1 2. rewrite Hi, Hl.
    destruct (IH w H) as [Hw Hq].
    destruct (run_singleton evs w). cbn [fst snd] in *. now split; auto.
  - rewrite executor_resume_noop; [now apply IH|].
    destruct H as (_ & _ & -> & _). destruct p as [|[|p]]; discriminate.
Qed.

(** Once the engine is ready every caller is handed a promise that is
    fulfilled with it, and the start-up is not invoked again. *)
Lemma ready_run m evs : forall w,
  in_phase (Ready m) w ->
  in_phase (Ready m) (snd (run_singleton evs w))
  /\ trace (snd (run_singleton evs w)) = trace w
  /\ List.length (promises w)
     <= List.length (promises (snd (run_singleton evs w)))
  /\ Forall (fun q => q < List.length (promises (snd (run_singleton evs w))))
            (fst (run_singleton evs w)).
Proof.
  induction evs as [|[|p r] evs IH]; intros w H; cbn [run_singleton].
  - cbn [fst snd]. auto.
  - destruct (getInstance_phase (Ready m) w H)
      as (q & w1 & Hget & Hph & (_ & _ & _ & _ & Htr) & Hq).
    rewrite Hget. cbn [phase_call] in Hph.
    destruct (IH w1 Hph) as (Hph' & Htr' & Hlen & Hall).
    assert (Hw1 : List.length (promises w) <= List.length (promises w1)).
    { revert Hget. unfold SpzSingleton.getInstance.
      destruct H as (-> & _). intros [= <- <-]. fields.
      rewrite length_app. lia. }
    assert (Hq1 : q < List.length (promises w1)).
    { apply nth_error_Some. congruence. }
    destruct (run_singleton evs w1) as [ps w2]. cbn [fst snd] in *.
    rewrite app_nil_r in Htr.
    split; [exact Hph'|]. split; [congruence|]. split; [lia|].
    constructor; [lia|assumption].
  - assert (Hno : SpzSingleton.executor_resume p r w = w).
    { apply executor_resume_noop.
      destruct H as (_ & _ & [n ->] & _).
      intros Hn. apply nth_error_repeat_inv in Hn. discriminate. }
    rewrite Hno. now apply IH.
Qed.

Lemma ready_promise m w q :
  in_phase (Ready m) w -> q < List.length (promises w) ->
  nth_error (promises w) q = Some (Fulfilled m).
Proof.
  intros (_ & _ & [n Hp] & _) Hq. rewrite Hp in *.
  rewrite repeat_length in Hq. now apply nth_error_repeat.
Qed.

Lemma instance_tells_phase ph w m :
  in_phase ph w -> instance w = Some m -> ph = Ready m.
Proof.
  destruct ph; cbn [in_phase]; intros (Hi & _) Hm; congruence.
Qed.

(** Callers that arrive before the start-up settles. *)
Lemma waiting_callers n :
  fst (run_singleton (repeat Call (S n)) world0) = repeat 0 (S n)
  /\ in_phase Loading (snd (run_singleton (repeat Call (S n)) world0)).
Proof.
  cbn [repeat run_singleton].
  destruct (getInstance_phase Fresh world0 in_phase_world0)
    as (q & w1 & Hget & Hph & _ & [-> _]).
  rewrite Hget. cbn [phase_call] in Hph.
  rewrite (loading_calls n w1 Hph). cbn [fst snd]. auto.
Qed.

(** C3.  Whatever the schedule of calls and settlements, the engine
    start-up is invoked at most once.  Any number of calls issued before
    it settles are all handed the same promise, which is still pending
    and is the one stored in [loadingPromise], for a single invocation of
    the start-up.  Once the engine is there it stays, every later caller
    is handed a promise fulfilled with that same engine, and the start-up
    is not invoked again. *)
Theorem engine_started_at_most_once :
  (forall evs,
      spzwasm_calls (trace (snd (run_singleton evs world0))) <= 1)
  /\ (forall n,
         let run := run_singleton (repeat Call (S n)) world0 in
         fst run = repeat 0 (S n)
         /\ loadingPromise (snd run) = Some 0
         /\ nth_error (promises (snd run)) 0 = Some Pending
         /\ spzwasm_calls (trace (snd run)) = 1)
  /\ (forall evs m evs',
         let w := snd (run_singleton evs world0) in
         instance w = Some m ->
         let run := run_singleton evs' w in
         instance (snd run) = Some m
         /\ Forall (fun q =>
                      nth_error (promises (snd run)) q = Some (Fulfilled m))
                   (fst run)
         /\ trace (snd run) = trace w).
Proof.
  split; [|split].
  - intros evs. eapply in_phase_calls.
    apply run_singleton_phase, in_phase_world0.
  - intros n. cbv zeta.
    destruct (waiting_callers n) as (Hps & _ & Hl & Hp & Hc).
    rewrite Hp. auto.
  - intros evs m evs' w Hm run. subst run.
    pose proof (run_singleton_phase evs Fresh world0 in_phase_world0) as Hph.
    fold w in Hph.
    rewrite (instance_tells_phase _ _ _ Hph Hm) in Hph.
    destruct (ready_run m evs' w Hph) as (Hph' & Htr & _ & Hall).
    split; [apply Hph'|]. split; [|exact Htr].
    eapply Forall_impl; [|exact Hall].
    intros q Hq. now apply ready_promise.
Qed.

Lemma engine_started_at_most_once_witness :
  let w := snd (run_singleton [Call; Call; Settles 0 (inr 7)] world0) in
  instance w = Some 7
  /\ let run := run_singleton [Call; Call] w in
     instance (snd run) = Some 7
     /\ Forall (fun q =>
                  nth_error (promises (snd run)) q = Some (Fulfilled 7))
               (fst run)
     /\ trace (snd run) = trace w.
Proof.
  cbv zeta. split; [reflexivity|].
  exact (proj2 (proj2 engine_started_at_most_once)
               [Call; Call; Settles 0 (inr 7)] 7 [Call; Call] eq_refl).
Defined.

(** C4, as stated, fails.  A caller asks for the engine, the start-up
    fails, a second caller asks: it is handed the same promise, already
    rejected, and the start-up is not invoked a second time.  The same
    through the worker: after a load whose start-up failed, a second load
    whose collaborators all answer well invokes no start-up and posts
    nothing. *)
Lemma no_retry_after_failed_start :
  (let w := snd (run_singleton [Call; Settles 0 (inl (Foreign 1))] world0) in
   let retry := SpzSingleton.getInstance w in
   fst retry = Val 0
   /\ nth_error (promises (snd retry)) 0 = Some (Rejected (Foreign 1))
   /\ instance (snd retry) = None
   /\ spzwasm_calls (trace w) = 1
   /\ spzwasm_calls (trace (snd retry)) = 1)
  /\ (let tr := trace (worker [ (env_init_fails, mkMsg "load" "blob:1");
                                (env_ok, mkMsg "load" "blob:2") ]
                              (main world0)) in
      spzwasm_calls tr = 1 /\ posts tr = []).
Proof.
  vm_compute. repeat split; reflexivity.
Qed.

(** C4, amended.  When the start-up fails, every caller that was waiting
    holds the one promise that is now rejected with the error; from then
    on every call is handed that same rejected promise, the engine is
    never set and the start-up is never invoked again. *)
Theorem failed_start_is_shared_and_final n e evs :
  let waiting := run_singleton (repeat Call (S n)) world0 in
  let w := SpzSingleton.executor_resume 0 (inl e) (snd waiting) in
  let later := run_singleton evs w in
  fst waiting = repeat 0 (S n)
  /\ nth_error (promises w) 0 = Some (Rejected e)
  /\ In (EvError e) (trace w)
  /\ Forall (fun q => q = 0) (fst later)
  /\ nth_error (promises (snd later)) 0 = Some (Rejected e)
  /\ instance (snd later) = None
  /\ spzwasm_calls (trace (snd later)) = 1.
Proof.
  cbv zeta.
  destruct (waiting_callers n) as (Hps & Hph).
  destruct (executor_resume_loading (inl e) _ Hph) as [Hf Hfr].
  cbn [phase_settle] in Hf.
  destruct (failed_run e evs _ Hf) as [Hw Hq].
  rewrite Hw. pose proof Hf as (Hi & _ & Hp & Hc).
  rewrite Hp. repeat split; auto.
  destruct Hfr as (_ & _ & _ & _ & ->). apply in_or_app. right. now left.
Qed.

(** ** The worker (lines 144-153) *)

Lemma in_phase_set_pointer ph p w :
  in_phase ph w -> in_phase ph (set_pointer p w).
Proof. destruct ph; exact (fun H => H). Qed.

Lemma in_phase_after ph w h bs p evs :
  in_phase ph w -> spzwasm_calls evs = 0 ->
  in_phase ph (after w h bs p evs).
Proof.
  intros H Hz.
  assert (Hc : spzwasm_calls (trace (after w h bs p evs))
               = spzwasm_calls (trace w)).
  { rewrite trace_after, spzwasm_calls_app, Hz. lia. }
  destruct ph; cbn [in_phase] in *; rewrite Hc; exact H.
Qed.

Lemma in_phase_emit ph e w :
  in_phase ph w -> is_spzwasm e = false -> in_phase ph (emit e w).
Proof.
  intros H He. rewrite emit_start. apply in_phase_after; [exact H|].
  unfold spzwasm_calls. cbn [filter]. now rewrite He.
Qed.

(** A call to [load] in a world of phase [ph]: how it ends and where it
    leaves the singleton and the listener. *)
Lemma load_phase env url ph w :
  in_phase ph w ->
  in_phase (snd (fst (acquire_result env ph))) (snd (load env url w))
  /\ listening (snd (load env url w)) = listening w
  /\ fst (load env url w) =
     match fst (fst (acquire_result env ph)) with
     | Val _ => Val tt
     | Throw e => Throw e
     | Suspended => Suspended
     end.
Proof.
  intros H.
  destruct (acquire_engine_phase env ph (set_pointer None w)
              (in_phase_set_pointer ph None w H))
    as (w1 & Hacq & Hph & (_ & _ & _ & Hl & _)).
  cbn [listening set_pointer] in Hl.
  destruct (fst (fst (acquire_result env ph))) as [inst|e|] eqn:Hr.
  - destruct (load_with_engine env url w inst w1 Hacq) as (heap & bs & Hrun).
    rewrite Hrun. cbn [fst snd]. repeat split; auto.
    apply in_phase_after; [exact Hph|].
    unfold spzwasm_calls. cbn [filter is_spzwasm].
    apply guarded_no_spzwasm.
  - rewrite load_run, Hacq. cbn [fst snd]. auto.
  - rewrite load_run, Hacq. cbn [fst snd]. auto.
Qed.

Lemma acquire_result_settles env ph :
  fst (fst (acquire_result env ph)) <> Suspended.
Proof.
  unfold acquire_result. destruct ph, (spzwasm env); discriminate.
Qed.

Lemma deliver_phase env data ph w :
  in_phase ph w -> listening w = true ->
  in_phase (phase_deliver env data ph) (deliver env data w)
  /\ listening (deliver env data w) = true.
Proof.
  intros H Hl. unfold deliver, phase_deliver, listener. rewrite Hl.
  destruct (String.eqb (type data) "load"); [|now auto].
  destruct (load_phase env (url data) ph w H) as (Hph & Hl' & Hr).
  destruct (load env (url data) w) as [[[]|e|] w1]; cbn [fst snd] in *;
    try (split; [exact Hph|congruence]).
  split; [now apply in_phase_emit|]. cbn [listening emit]. congruence.
Qed.

Lemma in_phase_main : in_phase Fresh (main world0) /\ listening (main world0) = true.
Proof. cbn. auto. Qed.

(** Every world the worker reaches is in some phase, never with the
    start-up in flight, and with the listener registered. *)
Lemma worker_phase msgs : forall ph w,
  in_phase ph w -> listening w = true ->
  in_phase (fold_left (fun ph m => phase_deliver (fst m) (snd m) ph) msgs ph)
           (worker msgs w)
  /\ listening (worker msgs w) = true.
Proof.
  induction msgs as [|[env data] msgs IH]; intros ph w H Hl;
    cbn [worker fold_left fst snd].
  - auto.
  - destruct (deliver_phase env data ph w H Hl) as [Hph Hl'].
    now apply IH.
Qed.

Lemma load_try_outcome env url inst w :
  fst (load_try env url inst w) =
  fst (fst (try_summary env url inst (List.length (hostBuffers w))
                        (pointer w))).
Proof.
  destruct (load_try_summary env url inst w) as (heap & bs & ->).
  now destruct (try_summary _ _ _ _ _) as [[r p] evs].
Qed.

(** C10.  A message whose type is not ["load"] changes nothing.  A load
    command posts exactly one message when it obtains the engine and its
    [try] block completes; when the block throws, the error is logged and
    nothing is posted; when the engine is not obtained, the rejection goes
    unhandled and nothing is posted. *)
Theorem message_only_on_success env data w :
  let w' := deliver env data w in
  (type data <> "load"%string -> w' = w)
  /\ (type data = "load"%string -> listening w = true ->
      match acquire_engine env (set_pointer None w) with
      | (Val inst, w1) =>
          match fst (load_try env (url data) inst
                              (emit (EvLog (LogInstance inst)) w1)) with
          | Val _ => exists g t, posts (new_events w w') = [EvPost g t]
          | Throw e =>
              posts (new_events w w') = []
              /\ In (EvError e) (new_events w w')
          | Suspended => False
          end
      | (Throw e, _) =>
          posts (new_events w w') = []
          /\ In (EvUnhandled e) (new_events w w')
      | (Suspended, _) => posts (new_events w w') = []
      end).
Proof.
  cbv zeta. unfold deliver, listener. split.
  - intros Hne. apply String.eqb_neq in Hne. rewrite Hne.
    now destruct (listening w).
  - intros Heq Hl. apply String.eqb_eq in Heq. rewrite Heq, Hl.
    destruct (acquire_engine_frame env (set_pointer None w))
      as (evs0 & (_ & Hb & Hp & _ & Htr) & Hev).
    destruct (engine_events_silent evs0 Hev) as (Hp0 & _).
    destruct (acquire_engine env (set_pointer None w))
      as [[inst|e|] w1] eqn:Hacq;
      cbn [snd trace hostBuffers pointer set_pointer] in Hb, Hp, Htr.
    + destruct (load_new_events env (url data) w inst w1 Hacq)
        as (evs1 & Hev1 & Htr1 & Hnew).
      destruct (engine_events_silent evs1 Hev1) as (Hp1 & _).
      destruct (load_with_engine env (url data) w inst w1 Hacq)
        as (heap & bs & Hrun).
      rewrite Hrun in *. cbn [snd] in Hnew.
      rewrite load_try_outcome. cbn [hostBuffers pointer emit].
      rewrite Hb, Hp, Hnew, posts_app, Hp1. cbn [app].
      change (posts (EvLog (LogInstance inst) :: ?l)) with (posts l).
      pose proof (guarded_posts env (url data) inst
                    (List.length (hostBuffers w)) None) as Hg.
      destruct (fst (fst (try_summary _ _ _ _ _))) as [[]|e|].
      * destruct Hg as [raw Hg]. rewrite Hg. eauto.
      * destruct Hg as [Hg Hin]. split; [exact Hg|].
        apply in_or_app. right. now right.
      * exact Hg.
    + rewrite load_run, Hacq.
      erewrite new_events_app
        by (cbn [trace emit]; rewrite Htr, <- app_assoc; reflexivity).
      rewrite posts_app, Hp0. split; [reflexivity|].
      apply in_or_app. right. now left.
    + rewrite load_run, Hacq.
      now rewrite (new_events_app _ _ _ Htr).
Qed.

Lemma message_only_on_success_witness :
  let w := main world0 in
  listening w = true
  /\ (exists g t,
         posts (new_events w (deliver env_ok (mkMsg "load" "blob:1") w))
         = [EvPost g t])
  /\ posts (new_events w (deliver env_404 (mkMsg "load" "blob:1") w)) = []
  /\ deliver env_ok (mkMsg "ping" "blob:1") w = w.
Proof.
  cbv zeta. split; [reflexivity|]. split; [|split].
  - exact (proj2 (message_only_on_success env_ok (mkMsg "load" "blob:1")
                    (main world0)) eq_refl eq_refl).
  - exact (proj1 (proj2 (message_only_on_success env_404
                           (mkMsg "load" "blob:1") (main world0))
                        eq_refl eq_refl)).
  - apply (proj1 (message_only_on_success env_ok (mkMsg "ping" "blob:1")
                    (main world0))).
    discriminate.
Defined.

(** After a failed start-up a load command is delivered and ends in an
    unhandled rejection with that error, whatever its collaborators
    answer. *)
Lemma failed_deliver env url e w :
  in_phase (Failed e) w -> listening w = true ->
  new_events w (deliver env (mkMsg "load" url) w) = [EvUnhandled e].
Proof.
  intros H Hl. unfold deliver, listener. rewrite Hl.
  cbn [type String.eqb Ascii.eqb Bool.eqb andb].
  destruct (acquire_engine_phase env (Failed e) (set_pointer None w)
              (in_phase_set_pointer _ None w H))
    as (w1 & Hacq & _ & (_ & _ & _ & _ & Htr)).
  cbn [acquire_result fst snd trace set_pointer] in Hacq, Htr.
  rewrite load_run, Hacq. apply new_events_app.
  cbn [trace emit]. rewrite Htr. now rewrite app_nil_r.
Qed.

Lemma rejected_tells_phase ph w p e :
  in_phase ph w -> ph <> Loading ->
  loadingPromise w = Some p ->
  nth_error (promises w) p = Some (Rejected e) ->
  ph = Failed e.
Proof.
  destruct ph; cbn [in_phase]; intros (Hi & Hl & Hp & _) Hne Hlp Hn.
  - congruence.
  - congruence.
  - destruct Hp as [n Hp]. rewrite Hp in Hn.
    apply nth_error_repeat_inv in Hn. discriminate.
  - rewrite Hl in Hlp. injection Hlp as <-. rewrite Hp in Hn.
    cbn in Hn. congruence.
Qed.

Lemma phase_deliver_not_loading env data ph :
  ph <> Loading -> phase_deliver env data ph <> Loading.
Proof.
  unfold phase_deliver, acquire_result.
  destruct (String.eqb _ _); [|auto].
  destruct ph, (spzwasm env); cbn; congruence.
Qed.

Lemma phase_deliver_healthy env data ph :
  start_ok env = true -> healthy ph = true ->
  healthy (phase_deliver env data ph) = true.
Proof.
  unfold phase_deliver, acquire_result, start_ok.
  destruct (String.eqb _ _); [|auto].
  destruct ph, (spzwasm env); cbn; congruence.
Qed.

Lemma worker_not_loading msgs : forall ph,
  ph <> Loading ->
  fold_left (fun ph m => phase_deliver (fst m) (snd m) ph) msgs ph <> Loading.
Proof.
  induction msgs as [|[env data] msgs IH]; intros ph H; cbn [fold_left].
  - exact H.
  - apply IH. now apply phase_deliver_not_loading.
Qed.

Lemma worker_healthy msgs : forall ph,
  forallb (fun m => start_ok (fst m)) msgs = true ->
  healthy ph = true ->
  healthy (fold_left (fun ph m => phase_deliver (fst m) (snd m) ph) msgs ph)
  = true.
Proof.
  induction msgs as [|[env data] msgs IH]; intros ph Hs H;
    cbn [fold_left forallb fst snd] in *.
  - exact H.
  - apply andb_prop in Hs. destruct Hs as [Hs1 Hs2].
    apply IH; [exact Hs2|]. now apply phase_deliver_healthy.
Qed.

Lemma healthy_acquires env ph :
  start_ok env = true -> healthy ph = true ->
  exists inst, fst (fst (acquire_result env ph)) = Val inst.
Proof.
  unfold acquire_result, start_ok.
  destruct ph, (spzwasm env); cbn; try discriminate; eauto.
Qed.

(** C9, as stated, fails.  After a load whose engine start-up failed the
    listener is still registered and a second load command is delivered,
    but whatever its collaborators answer it posts nothing: it ends in the
    same unhandled rejection. *)
Lemma no_success_after_failed_start :
  let w := worker [(env_init_fails, mkMsg "load" "blob:1")] (main world0) in
  listening w = true
  /\ forall env url,
       new_events w (deliver env (mkMsg "load" url) w)
       = [EvUnhandled (Foreign 1)]
       /\ posts (new_events w (deliver env (mkMsg "load" url) w)) = [].
Proof.
  cbv zeta.
  destruct (worker_phase [(env_init_fails, mkMsg "load" "blob:1")]
              Fresh (main world0) (proj1 in_phase_main) (proj2 in_phase_main))
    as [Hph Hl].
  split; [exact Hl|]. intros env url.
  change (fold_left _ _ Fresh) with (Failed (Foreign 1)) in Hph.
  rewrite (failed_deliver env url _ _ Hph Hl). now split.
Qed.

(** C9, amended.  After any sequence of messages, whatever failed while
    they were served, the listener is registered and stays so when the
    next message is delivered.  The next load posts its message whenever
    it obtains the engine and its own fetch, allocation, decode and copy
    go through; it obtains the engine when no engine start-up has failed
    so far and its own, if it is the one to start the engine, succeeds.
    Once a start-up has failed, every later load command is still
    delivered and ends in an unhandled rejection with that same error. *)
Theorem worker_survives_failed_loads hist :
  let w := worker hist (main world0) in
  listening w = true
  /\ (forall env data, listening (deliver env data w) = true)
  /\ (forall env url inst w1 status bytes ptr raw heap,
         acquire_engine env (set_pointer None w) = (Val inst, w1) ->
         fetch env url = FetchResponse true status (inr bytes) ->
         _malloc env inst (BYTES_PER_ELEMENT * Z.of_nat (List.length bytes))
         = Some ptr ->
         heapset_ok env bytes (ptr / BYTES_PER_ELEMENT) = true ->
         load_spz env inst ptr (Z.of_nat (List.length bytes)) bytes
         = DecodeOk raw heap ->
         copies_ok env (List.length (hostBuffers w)) (vectors raw) = true ->
         exists g t,
           posts (new_events w (deliver env (mkMsg "load" url) w))
           = [EvPost g t])
  /\ (forallb (fun m => start_ok (fst m)) hist = true ->
      forall env, start_ok env = true ->
      exists inst, fst (acquire_engine env (set_pointer None w)) = Val inst)
  /\ (forall p e,
         loadingPromise w = Some p ->
         nth_error (promises w) p = Some (Rejected e) ->
         forall env url,
           new_events w (deliver env (mkMsg "load" url) w) = [EvUnhandled e]).
Proof.
  cbv zeta.
  destruct (worker_phase hist Fresh (main world0)
              (proj1 in_phase_main) (proj2 in_phase_main)) as [Hph Hl].
  set (w := worker hist (main world0)) in *.
  set (ph := fold_left _ hist Fresh) in *.
  split; [exact Hl|]. split; [|split; [|split]].
  - intros env data. now apply (deliver_phase env data ph w).
  - intros env u inst w1 status bytes ptr raw heap
      Hacq Hfetch Hmalloc Hset Hdecode Hcopies.
    pose proof (load_success_run env u w inst w1 status bytes ptr raw heap
                  Hacq Hfetch Hmalloc Hset Hdecode Hcopies) as Hrun.
    destruct (acquire_engine_frame env (set_pointer None w))
      as (evs0 & (_ & _ & _ & _ & Htr) & Hev).
    rewrite Hacq in Htr. cbn [snd trace set_pointer] in Htr.
    destruct (engine_events_silent evs0 Hev) as (Hp0 & _).
    unfold deliver, listener. rewrite Hl.
    cbn [type url String.eqb Ascii.eqb Bool.eqb andb]. rewrite Hrun.
    erewrite new_events_app
      by (rewrite trace_after, Htr, <- app_assoc; reflexivity).
    rewrite posts_app, Hp0.
    unfold posted_events, decoded_events, fetched_events, vectors.
    cbn [app map]. eexists _, _. reflexivity.
  - intros Hs env Henv.
    destruct (healthy_acquires env ph Henv) as [inst Hinst].
    { apply worker_healthy; [exact Hs|reflexivity]. }
    destruct (acquire_engine_phase env ph (set_pointer None w)
                (in_phase_set_pointer _ None w Hph)) as (w1 & Hacq & _).
    exists inst. now rewrite Hacq.
  - intros p e Hlp Hn env url.
    assert (Hne : ph <> Loading) by (apply worker_not_loading; discriminate).
    rewrite (rejected_tells_phase ph w p e Hph Hne Hlp Hn) in Hph.
    now apply failed_deliver.
Qed.

Lemma worker_survives_failed_loads_witness :
  let hist := [ (env_404, mkMsg "load" "blob:1");
                (env_no_memory, mkMsg "load" "blob:2");
                (env_host_oom, mkMsg "load" "blob:3") ] in
  let w := worker hist (main world0) in
  listening w = true
  /\ (exists g t,
         posts (new_events w (deliver env_ok (mkMsg "load" "blob:4") w))
         = [EvPost g t])
  /\ (exists inst,
         fst (acquire_engine env_ok (set_pointer None w)) = Val inst).
Proof.
  cbv zeta.
  pose proof (worker_survives_failed_loads
                [ (env_404, mkMsg "load" "blob:1");
                  (env_no_memory, mkMsg "load" "blob:2");
                  (env_host_oom, mkMsg "load" "blob:3") ])
    as (Hl & _ & Hok & Hacq & _).
  split; [exact Hl|]. split.
  - apply (Hok env_ok "blob:4"%string 7
               (snd (acquire_engine env_ok
                       (set_pointer None
                          (worker
                             [ (env_404, mkMsg "load" "blob:1");
                               (env_no_memory, mkMsg "load" "blob:2");
                               (env_host_oom, mkMsg "load" "blob:3") ]
                             (main world0)))))
               200%Z sample_bytes 16%Z sample_raw sample_heap);
      vm_compute; reflexivity.
  - apply Hacq; vm_compute; reflexivity.
Defined.

(** ** Engine buffers over a call (lines 84, 91, 98, 137) *)

(** Over the [try] statement every engine buffer handed to the script is
    freed, on every path but one: when the copy of lines 19-24 throws,
    the input buffer is freed by the [finally] clause and the six output
    buffers are not. *)
Lemma guarded_balance env url inst k :
  let evs := guarded_events env url inst k None in
  Permutation (acquired evs) (released evs)
  \/ exists ptr raw,
       copies_ok env k (vectors raw) = false
       /\ acquired evs = ptr :: map vec_data (vectors raw)
       /\ released evs = [ptr].
Proof.
  cbv zeta.
  summary_cases env url inst; measure;
    try (left; solve [constructor | reflexivity]).
  - left. apply (Permutation_cons_append
                   [vec_data (Raw.positions raw); vec_data (Raw.scales raw);
                    vec_data (Raw.rotations raw); vec_data (Raw.alphas raw);
                    vec_data (Raw.colors raw); vec_data (Raw.sh raw)] ptr).
  - right. exists ptr, raw. auto.
Qed.

(** The same over a whole call of [load]. *)
Lemma load_balance env url w :
  let evs := new_events w (snd (load env url w)) in
  Permutation (acquired evs) (released evs)
  \/ exists ptr raw,
       acquired evs = ptr :: map vec_data (vectors raw)
       /\ released evs = [ptr].
Proof.
  cbv zeta.
  destruct (acquire_engine env (set_pointer None w)) as [[inst|e|] w1] eqn:Hacq.
  - destruct (load_new_events env url w inst w1 Hacq)
      as (evs0 & Hev & _ & ->).
    destruct (engine_events_silent evs0 Hev) as (_ & _ & Ha & Hr).
    rewrite acquired_app, released_app, Ha, Hr. cbn [app].
    change (acquired (EvLog (LogInstance inst) :: ?l)) with (acquired l).
    change (released (EvLog (LogInstance inst) :: ?l)) with (released l).
    destruct (guarded_balance env url inst (List.length (hostBuffers w)))
      as [H|(ptr & raw & _ & H)]; [now left|right; eauto].
  - left.
    destruct (acquire_engine_frame env (set_pointer None w))
      as (evs0 & (_ & _ & _ & _ & Htr) & Hev).
    rewrite Hacq in Htr. cbn [snd trace set_pointer] in Htr.
    rewrite load_run, Hacq. cbn [snd].
    rewrite (new_events_app _ _ _ Htr).
    destruct (engine_events_silent evs0 Hev) as (_ & _ & -> & ->).
    constructor.
  - left.
    destruct (acquire_engine_frame env (set_pointer None w))
      as (evs0 & (_ & _ & _ & _ & Htr) & Hev).
    rewrite Hacq in Htr. cbn [snd trace set_pointer] in Htr.
    rewrite load_run, Hacq. cbn [snd].
    rewrite (new_events_app _ _ _ Htr).
    destruct (engine_events_silent evs0 Hev) as (_ & _ & -> & ->).
    constructor.
Qed.

(** C1.  The claim does not hold of the script.  The host cannot
    allocate the third copy: [buffer.map] throws inside
    [createGaussianCloudFromRaw], after [load_spz] has handed out the six
    output vectors and before [disposeRawGSCloud] is reached.  The error
    is caught and logged, the [finally] clause frees the input buffer,
    and [load] resolves with seven engine buffers acquired and one
    freed. *)
Theorem output_buffers_leak_when_copy_throws :
  let run := load env_host_oom "blob:1" world0 in
  fst run = Val tt
  /\ In (EvError RangeError) (trace (snd run))
  /\ acquired (trace (snd run)) = [16; 64; 80; 96; 112; 128; 0]%Z
  /\ released (trace (snd run)) = [16]%Z
  /\ ~ Permutation (acquired (trace (snd run))) (released (trace (snd run))).
Proof.
  cbv zeta.
  assert (Hrun : trace (snd (load env_host_oom "blob:1" world0)) =
                 [ EvSpzwasm; EvLog LogWasmLoaded; EvLog (LogInstance 7);
                   EvFetch "blob:1"; EvRevoke "blob:1";
                   EvLog (LogDataLength 2); EvMalloc 2 (Some 16%Z);
                   EvHeapSet sample_bytes 16;
                   EvLoadSpz 16 2 (Some sample_raw);
                   EvLog (LogRawNumPoints 1); EvError RangeError;
                   EvFree 16; EvLog LogDone ])
    by (vm_compute; reflexivity).
  rewrite Hrun.
  split; [vm_compute; reflexivity|].
  split; [cbn [In]; auto 20|].
  split; [reflexivity|]. split; [reflexivity|].
  intros H. apply Permutation_length in H. discriminate H.
Qed.

(** * Further properties of the worker script *)

(** ** The copy of one vector (lines 5-11) *)

(** X1.  With the default [enhancementFunc], the only one the script
    passes, [floatVectorToFloatArray] returns exactly when the view over
    the vector can be built (a data pointer that is not negative and a
    multiple of four, a range inside the engine memory) and the host can
    allocate the copy.  It then returns an array of [vec.size()] elements
    at offset 0 of the next host buffer, holding the floats the view
    shows, with the engine memory and the trace untouched.  Otherwise it
    throws a [RangeError] and leaves the world exactly as it found it. *)
Theorem floatVectorToFloatArray_copies_or_leaves env m vec w :
  let k := List.length (hostBuffers w) in
  match floatVectorToFloatArray env m vec (fun n => n) w with
  | (Val a, w') =>
      view_ok env vec = true
      /\ hostAlloc env k (vec_size vec) = true
      /\ a = Float32Array.mk (HostBuf k) 0 (vec_size vec)
      /\ elements w' a = elements w (view vec)
      /\ w' = set_hostBuffers (hostBuffers w ++ [elements w (view vec)]) w
  | (Throw e, w') =>
      e = RangeError
      /\ w' = w
      /\ (view_ok env vec = false \/ hostAlloc env k (vec_size vec) = false)
  | (Suspended, _) => False
  end.
Proof.
  cbv zeta. rewrite floatVectorToFloatArray_run, map_id.
  destruct (view_ok env vec) eqn:Hv;
    [destruct (hostAlloc env _ _) eqn:Ha|]; cbn [andb]; auto.
  repeat split.
  unfold elements at 1.
  cbn [Float32Array.buffer Float32Array.byteOffset Float32Array.length
       hostBuffers set_hostBuffers].
  rewrite nth_middle. cbn [Z.div Z.to_nat skipn].
  rewrite <- (length_elements_view w vec).
  apply firstn_all.
Qed.

(** ** The copy of the six vectors (lines 14-26) *)

(** X2.  [createGaussianCloudFromRaw] touches nothing but the host's
    buffer store, which it only extends: the trace, the singleton, the
    engine memory and [pointer] are as before, whether it returns or
    throws.  It returns exactly when the six copies go through, and the
    only error it throws is a [RangeError]. *)
Theorem createGaussianCloudFromRaw_extends_host_only env m raw w :
  let run := createGaussianCloudFromRaw env m raw w in
  (exists bs, snd run = set_hostBuffers (hostBuffers w ++ bs) w)
  /\ match fst run with
     | Val gc =>
         copies_ok env (List.length (hostBuffers w)) (vectors raw) = true
         /\ gc = scene_at (List.length (hostBuffers w)) raw
     | Throw e =>
         e = RangeError
         /\ copies_ok env (List.length (hostBuffers w)) (vectors raw) = false
     | Suspended => False
     end.
Proof.
  cbv zeta.
  destruct (createGaussianCloudFromRaw_cases env m raw w)
    as [[Hc ->]|[Hc [bs ->]]]; cbn [fst snd]; eauto.
Qed.

(** ** How [load] ends (lines 66-141) *)

Lemma engine_events_call_free evs :
  forallb is_engine_event evs = true ->
  engine_calls evs = [] /\ logged_instances evs = [].
Proof.
  induction evs as [|e evs IH]; [now auto|].
  cbn [forallb]. intros H. apply andb_prop in H. destruct H as [He H].
  destruct (IH H) as (Hc & Hl).
  unfold engine_calls, logged_instances in *.
  cbn [filter flat_map]. rewrite Hc, Hl.
  destruct e as [| [] | | | | | | | | |]; try discriminate He; now auto.
Qed.

(** X3.  The promise [load] returns rejects exactly when the engine
    start-up rejects, and with that error.  No error of the [try] block
    rejects it: what the fetch, the status check, the body read, the
    allocation, the decode, the copy or the post throw is caught at line
    132, and neither the [catch] nor the [finally] clause throws.  When
    the engine is obtained and the fetch and the body read settle, in
    whichever way, [load] resolves. *)
Theorem load_rejects_only_without_engine env url w :
  (forall e,
     fst (load env url w) = Throw e
     <-> fst (acquire_engine env (set_pointer None w)) = Throw e)
  /\ (forall inst,
        fst (acquire_engine env (set_pointer None w)) = Val inst ->
        fst (load env url w) = Val tt).
Proof.
  destruct (acquire_engine env (set_pointer None w)) as [[inst|e|] w1] eqn:Hacq.
  - destruct (load_with_engine env url w inst w1 Hacq) as (heap & bs & ->).
    cbn [fst]. split; [|reflexivity].
    intros e. split; discriminate.
  - rewrite load_run, Hacq. cbn [fst].
    split; [|discriminate].
    intros e0. split; intros H; injection H as ->; reflexivity.
  - rewrite load_run, Hacq. cbn [fst].
    split; [|discriminate].
    intros e0. split; discriminate.
Qed.

Lemma load_rejects_only_without_engine_witness :
  fst (load env_init_fails "blob:1" world0) = Throw (Foreign 1)
  /\ fst (load env_host_oom "blob:1" world0) = Val tt.
Proof.
  split.
  - apply (proj1 (load_rejects_only_without_engine
                    env_init_fails "blob:1" world0)).
    vm_compute; reflexivity.
  - apply (proj2 (load_rejects_only_without_engine
                    env_host_oom "blob:1" world0) 7).
    vm_compute; reflexivity.
Defined.

Lemma guarded_ends_with_free env url inst k p0 status bytes ptr :
  fetch env url = FetchResponse true status (inr bytes) ->
  _malloc env inst (BYTES_PER_ELEMENT * Z.of_nat (List.length bytes))
  = Some ptr ->
  exists evs,
    guarded_events env url inst k p0 = evs ++ [EvFree ptr; EvLog LogDone].
Proof.
  intros Hf Hm. unfold guarded_events, try_summary.
  rewrite Hf. cbv zeta. rewrite Hm.
  destruct (heapset_ok env bytes _);
    [destruct (load_spz env inst ptr _ bytes) as [e|raw heap];
     [|destruct (copies_ok env k (vectors raw))]|];
    cbn [finally_events]; rewrite ?app_assoc; eexists; reflexivity.
Qed.

(** X4.  Whenever [_malloc] has answered with a block, the last thing
    [load] does with the engine is to free that block, and it then logs
    that it is done: on the success path and on every path that throws
    after the allocation alike. *)
Theorem input_buffer_freed_last env url w inst w1 status bytes ptr :
  acquire_engine env (set_pointer None w) = (Val inst, w1) ->
  fetch env url = FetchResponse true status (inr bytes) ->
  _malloc env inst (BYTES_PER_ELEMENT * Z.of_nat (List.length bytes))
  = Some ptr ->
  exists evs,
    new_events w1 (snd (load env url w)) = evs ++ [EvFree ptr; EvLog LogDone].
Proof.
  intros Hacq Hf Hm.
  destruct (load_with_engine env url w inst w1 Hacq) as (heap & bs & ->).
  destruct (guarded_ends_with_free env url inst
              (List.length (hostBuffers w)) None status bytes ptr Hf Hm)
    as [evs Hevs].
  exists (EvLog (LogInstance inst) :: evs).
  apply new_events_app. cbn [snd]. now rewrite trace_after, Hevs.
Qed.

Lemma input_buffer_freed_last_witness :
  let w1 := snd (acquire_engine env_host_oom (set_pointer None world0)) in
  exists evs,
    new_events w1 (snd (load env_host_oom "blob:1" world0))
    = evs ++ [EvFree 16; EvLog LogDone].
Proof.
  apply (input_buffer_freed_last env_host_oom "blob:1" world0 7
           (snd (acquire_engine env_host_oom (set_pointer None world0)))
           200%Z sample_bytes 16%Z); reflexivity.
Defined.

Lemma engine_calls_app l1 l2 :
  engine_calls (l1 ++ l2) = engine_calls l1 ++ engine_calls l2.
Proof. apply filter_app. Qed.

Lemma errors_app l1 l2 : errors (l1 ++ l2) = errors l1 ++ errors l2.
Proof. apply filter_app. Qed.

Ltac measure2 :=
  unfold engine_calls, errors, logged_instances;
  cbn [filter flat_map app List.length is_engine_call is_error
       logged_instance map].

Lemma guarded_without_body env url inst k :
  (forall status bytes,
      fetch env url <> FetchResponse true status (inr bytes)) ->
  engine_calls (guarded_events env url inst k None) = [].
Proof.
  intros H. summary_cases env url inst; measure2; try reflexivity;
    now destruct (H status bytes).
Qed.

(** X5.  When the fetch delivers no body (it rejects, the status is not
    a success, or reading the body rejects) [load] makes no call into the
    engine at all: no [_malloc], no [HEAPU8.set], no [load_spz], no
    [_free]. *)
Theorem no_body_no_engine_call env url w :
  (forall status bytes,
      fetch env url <> FetchResponse true status (inr bytes)) ->
  engine_calls (new_events w (snd (load env url w))) = [].
Proof.
  intros H.
  destruct (acquire_engine env (set_pointer None w)) as [[inst|e|] w1] eqn:Hacq.
  - destruct (load_new_events env url w inst w1 Hacq)
      as (evs0 & Hev & _ & ->).
    destruct (engine_events_call_free evs0 Hev) as [Hc _].
    rewrite engine_calls_app, Hc. cbn [app].
    change (engine_calls (EvLog (LogInstance inst) :: ?l))
      with (engine_calls l).
    now apply guarded_without_body.
  - destruct (acquire_engine_frame env (set_pointer None w))
      as (evs0 & (_ & _ & _ & _ & Htr) & Hev).
    rewrite Hacq in Htr. cbn [snd trace set_pointer] in Htr.
    rewrite load_run, Hacq. cbn [snd].
    rewrite (new_events_app _ _ _ Htr).
    now destruct (engine_events_call_free evs0 Hev).
  - destruct (acquire_engine_frame env (set_pointer None w))
      as (evs0 & (_ & _ & _ & _ & Htr) & Hev).
    rewrite Hacq in Htr. cbn [snd trace set_pointer] in Htr.
    rewrite load_run, Hacq. cbn [snd].
    rewrite (new_events_app _ _ _ Htr).
    now destruct (engine_events_call_free evs0 Hev).
Qed.

Lemma no_body_no_engine_call_witness :
  (forall status bytes,
      fetch env_404 "blob:1" <> FetchResponse true status (inr bytes))
  /\ engine_calls (new_events world0 (snd (load env_404 "blob:1" world0)))
     = [].
Proof.
  assert (H : forall status bytes,
             fetch env_404 "blob:1" <> FetchResponse true status (inr bytes))
    by (intros status bytes; discriminate).
  split; [exact H|].
  exact (no_body_no_engine_call env_404 "blob:1" world0 H).
Defined.

Lemma guarded_errors env url inst k p0 :
  errors (guarded_events env url inst k p0) =
  match fst (fst (try_summary env url inst k p0)) with
  | Throw e => [EvError e]
  | _ => []
  end.
Proof.
  summary_cases env url inst; try (destruct p0); measure2; reflexivity.
Qed.

(** X6.  Once the engine is there, [load] prints one error for a [try]
    block that throws, the error thrown, and none for a block that
    completes. *)
Theorem one_error_per_failed_try env url w inst w1 :
  acquire_engine env (set_pointer None w) = (Val inst, w1) ->
  errors (new_events w1 (snd (load env url w))) =
  match fst (load_try env url inst (emit (EvLog (LogInstance inst)) w1)) with
  | Throw e => [EvError e]
  | _ => []
  end.
Proof.
  intros Hacq.
  destruct (acquire_engine_frame env (set_pointer None w))
    as (evs0 & (_ & Hb & Hp & _ & _) & _).
  rewrite Hacq in Hb, Hp. cbn [snd hostBuffers pointer set_pointer] in Hb, Hp.
  destruct (load_with_engine env url w inst w1 Hacq) as (heap & bs & ->).
  cbn [snd].
  erewrite new_events_app by (rewrite trace_after; reflexivity).
  change (errors (EvLog (LogInstance inst) :: ?l)) with (errors l).
  rewrite guarded_errors, load_try_outcome.
  cbn [hostBuffers pointer emit]. now rewrite Hb, Hp.
Qed.

Lemma one_error_per_failed_try_witness :
  let w1 := snd (acquire_engine env_404 (set_pointer None world0)) in
  errors (new_events w1 (snd (load env_404 "blob:1" world0)))
  = [EvError (FetchFailed 404)].
Proof.
  exact (one_error_per_failed_try env_404 "blob:1" world0 7
           (snd (acquire_engine env_404 (set_pointer None world0))) eq_refl).
Defined.

(** X7.  The order of a successful load: fetch, revoke, allocate, store
    the bytes, decode, free the six output vectors in the order
    positions, scales, rotations, alphas, colors, sh, post the message,
    and only then free the input block.  The outputs are freed before
    the message is posted, the input after. *)
Theorem successful_load_order
    env url w inst w1 status bytes ptr raw heap :
  acquire_engine env (set_pointer None w) = (Val inst, w1) ->
  fetch env url = FetchResponse true status (inr bytes) ->
  _malloc env inst (BYTES_PER_ELEMENT * Z.of_nat (List.length bytes))
  = Some ptr ->
  heapset_ok env bytes (ptr / BYTES_PER_ELEMENT) = true ->
  load_spz env inst ptr (Z.of_nat (List.length bytes)) bytes
  = DecodeOk raw heap ->
  copies_ok env (List.length (hostBuffers w)) (vectors raw) = true ->
  exists g t,
    new_events w1 (snd (load env url w)) =
    [ EvLog (LogInstance inst);
      EvFetch url;
      EvRevoke url;
      EvLog (LogDataLength (List.length bytes));
      EvMalloc (BYTES_PER_ELEMENT * Z.of_nat (List.length bytes)) (Some ptr);
      EvHeapSet bytes (ptr / BYTES_PER_ELEMENT);
      EvLoadSpz ptr (Z.of_nat (List.length bytes)) (Some raw);
      EvLog (LogRawNumPoints (Raw.numPoints raw));
      EvFree (vec_data (Raw.positions raw));
      EvFree (vec_data (Raw.scales raw));
      EvFree (vec_data (Raw.rotations raw));
      EvFree (vec_data (Raw.alphas raw));
      EvFree (vec_data (Raw.colors raw));
      EvFree (vec_data (Raw.sh raw));
      EvLog (LogCloudNumPoints (Raw.numPoints raw));
      EvPost g t;
      EvFree ptr;
      EvLog LogDone ].
Proof.
  intros Hacq Hfetch Hmalloc Hset Hdecode Hcopies.
  rewrite (load_success_run env url w inst w1 status bytes ptr raw heap
             Hacq Hfetch Hmalloc Hset Hdecode Hcopies).
  eexists _, _. apply new_events_app. cbn [snd]. rewrite trace_after.
  unfold decoded_events, fetched_events, posted_events, vectors.
  cbn [app map]. reflexivity.
Qed.

Lemma successful_load_order_witness :
  let w1 := snd (acquire_engine env_ok (set_pointer None world0)) in
  exists g t,
    new_events w1 (snd (load env_ok "blob:1" world0)) =
    [ EvLog (LogInstance 7); EvFetch "blob:1"; EvRevoke "blob:1";
      EvLog (LogDataLength 2); EvMalloc 2 (Some 16%Z);
      EvHeapSet sample_bytes 16; EvLoadSpz 16 2 (Some sample_raw);
      EvLog (LogRawNumPoints 1);
      EvFree 64; EvFree 80; EvFree 96; EvFree 112; EvFree 128; EvFree 0;
      EvLog (LogCloudNumPoints 1); EvPost g t; EvFree 16; EvLog LogDone ].
Proof.
  apply (successful_load_order env_ok "blob:1" world0 7
           (snd (acquire_engine env_ok (set_pointer None world0)))
           200%Z sample_bytes 16%Z sample_raw sample_heap); reflexivity.
Defined.

(** A [try] block that throws into the [catch] and [finally] clauses. *)
Lemma load_after_throw env url w inst w1 e h bs p evs :
  acquire_engine env (set_pointer None w) = (Val inst, w1) ->
  load_try env url inst (emit (EvLog (LogInstance inst)) w1) =
  (Throw e, after (emit (EvLog (LogInstance inst)) w1) h bs p evs) ->
  load env url w =
  (Val tt,
   after w1 h bs p
     (EvLog (LogInstance inst) :: evs ++ EvError e :: finally_events p)).
Proof.
  intros Hacq Htry. rewrite load_run, Hacq. unfold try_catch_finally.
  rewrite Htry. unfold console_error, modify.
  rewrite emit_after, load_finally_run, emit_start, after_after.
  cbn [app]. now rewrite <- app_assoc.
Qed.

(** X8.  A response whose status is not a success: the logged error
    carries that status, and nothing else happens.  The body is not
    read, the engine is not called, the host allocates nothing, and
    [pointer] stays [null], so that the [finally] clause does nothing. *)
Theorem bad_status_is_logged_with_status env url w inst w1 status body :
  acquire_engine env (set_pointer None w) = (Val inst, w1) ->
  fetch env url = FetchResponse false status body ->
  let w' := snd (load env url w) in
  new_events w1 w' =
  [EvLog (LogInstance inst); EvFetch url; EvError (FetchFailed status)]
  /\ pointer w' = None
  /\ hostBuffers w' = hostBuffers w
  /\ HEAPF32 w' = HEAPF32 w.
Proof.
  intros Hacq Hfetch w'.
  destruct (acquire_engine_frame env (set_pointer None w))
    as (evs0 & (Hh & Hb & Hp & _ & _) & _).
  rewrite Hacq in Hh, Hb, Hp.
  cbn [snd hostBuffers HEAPF32 pointer set_pointer] in Hh, Hb, Hp.
  pose proof (load_try_bad_status env url inst
                (emit (EvLog (LogInstance inst)) w1) status body Hfetch)
    as Htry.
  subst w'.
  rewrite (load_after_throw env url w inst w1 _ _ _ _ _ Hacq Htry).
  cbn [snd pointer emit HEAPF32]. rewrite Hp. cbn [finally_events app].
  split; [now apply new_events_app|].
  unfold after. fields. rewrite app_nil_r. auto.
Qed.

Lemma bad_status_is_logged_with_status_witness :
  let w1 := snd (acquire_engine env_404 (set_pointer None world0)) in
  new_events w1 (snd (load env_404 "blob:1" world0)) =
  [EvLog (LogInstance 7); EvFetch "blob:1"; EvError (FetchFailed 404)].
Proof.
  exact (proj1 (bad_status_is_logged_with_status env_404 "blob:1" world0 7
                  (snd (acquire_engine env_404 (set_pointer None world0)))
                  404%Z (inr []) eq_refl eq_refl)).
Defined.

(** X9.  When [load_spz] throws, the error is logged and the input block
    is freed: one engine buffer acquired, the same one freed.  No output
    vector exists, the host allocates nothing, and nothing is posted. *)
Theorem decode_failure_frees_input
    env url w inst w1 status bytes ptr e :
  acquire_engine env (set_pointer None w) = (Val inst, w1) ->
  fetch env url = FetchResponse true status (inr bytes) ->
  _malloc env inst (BYTES_PER_ELEMENT * Z.of_nat (List.length bytes))
  = Some ptr ->
  heapset_ok env bytes (ptr / BYTES_PER_ELEMENT) = true ->
  load_spz env inst ptr (Z.of_nat (List.length bytes)) bytes
  = DecodeThrow e ->
  let w' := snd (load env url w) in
  new_events w1 w' =
  EvLog (LogInstance inst)
  :: decoded_events url bytes ptr None
     ++ [EvError e; EvFree ptr; EvLog LogDone]
  /\ acquired (new_events w1 w') = [ptr]
  /\ released (new_events w1 w') = [ptr]
  /\ posts (new_events w1 w') = []
  /\ hostBuffers w' = hostBuffers w.
Proof.
  intros Hacq Hfetch Hmalloc Hset Hdecode w'.
  destruct (acquire_engine_frame env (set_pointer None w))
    as (evs0 & (_ & Hb & _ & _ & _) & _).
  rewrite Hacq in Hb. cbn [snd hostBuffers set_pointer] in Hb.
  pose proof (load_try_decode_throws env url inst
                (emit (EvLog (LogInstance inst)) w1) status bytes Hfetch
                ptr Hmalloc Hset e Hdecode) as Htry.
  subst w'.
  rewrite (load_after_throw env url w inst w1 _ _ _ _ _ Hacq Htry).
  cbn [snd finally_events].
  assert (Hnew : new_events w1
                   (after w1 (HEAPF32 (emit (EvLog (LogInstance inst)) w1))
                      [] (Some ptr)
                      (EvLog (LogInstance inst)
                       :: decoded_events url bytes ptr None
                          ++ [EvError e; EvFree ptr; EvLog LogDone]))
                 = EvLog (LogInstance inst)
                   :: decoded_events url bytes ptr None
                      ++ [EvError e; EvFree ptr; EvLog LogDone])
    by now apply new_events_app.
  rewrite Hnew. unfold decoded_events, fetched_events. cbn [app].
  repeat split.
  unfold after. fields. now rewrite app_nil_r.
Qed.

Lemma decode_failure_frees_input_witness :
  let w1 := snd (acquire_engine env_bad_bytes (set_pointer None world0)) in
  let w' := snd (load env_bad_bytes "blob:1" world0) in
  acquired (new_events w1 w') = [16%Z]
  /\ released (new_events w1 w') = [16%Z]
  /\ posts (new_events w1 w') = [].
Proof.
  destruct (decode_failure_frees_input env_bad_bytes "blob:1" world0 7
              (snd (acquire_engine env_bad_bytes (set_pointer None world0)))
              200%Z sample_bytes 16%Z (Foreign 2)
              eq_refl eq_refl eq_refl eq_refl eq_refl)
    as (_ & Ha & Hr & Hp & _).
  cbv zeta. repeat split; assumption.
Defined.

(** ** The worker over a history of messages (lines 144-153) *)

Lemma deliver_other env data w :
  is_load (env, data) = false -> deliver env data w = w.
Proof.
  unfold is_load, deliver, listener. cbn [snd]. intros ->.
  now destruct (listening w).
Qed.

(** X10.  Messages whose type is not ["load"] can be dropped from any
    history: the worker ends in the same world, with the same trace. *)
Theorem worker_ignores_other_messages msgs : forall w,
  worker msgs w = worker (filter is_load msgs) w.
Proof.
  induction msgs as [|[env data] msgs IH]; intros w; [reflexivity|].
  cbn [worker filter].
  destruct (is_load (env, data)) eqn:Hl.
  - cbn [worker]. apply IH.
  - rewrite (deliver_other env data w Hl). apply IH.
Qed.

Lemma guarded_posts_bound env url inst k p0 :
  List.length (posts (guarded_events env url inst k p0)) <= 1.
Proof.
  pose proof (guarded_posts env url inst k p0) as H.
  destruct (fst (fst (try_summary env url inst k p0))) as [[]|e|].
  - destruct H as [raw ->]. cbn. lia.
  - destruct H as [-> _]. cbn. lia.
  - destruct H.
Qed.

(** The trace only grows when a message is delivered, by at most one
    posted message. *)
Lemma deliver_extends env data w :
  exists evs,
    trace (deliver env data w) = trace w ++ evs
    /\ List.length (posts evs) <= 1.
Proof.
  unfold deliver, listener.
  destruct (listening w);
    [|exists []; rewrite app_nil_r; cbn; split; [reflexivity|lia]].
  destruct (String.eqb (type data) "load");
    [|exists []; rewrite app_nil_r; cbn; split; [reflexivity|lia]].
  destruct (acquire_engine_frame env (set_pointer None w))
    as (evs0 & (_ & _ & _ & _ & Htr) & Hev).
  destruct (engine_events_silent evs0 Hev) as (Hp0 & _).
  destruct (acquire_engine env (set_pointer None w))
    as [[inst|e|] w1] eqn:Hacq; cbn [snd trace set_pointer] in Htr.
  - destruct (load_with_engine env (url data) w inst w1 Hacq)
      as (heap & bs & ->).
    eexists. rewrite trace_after, Htr, <- app_assoc. split; [reflexivity|].
    rewrite posts_app, Hp0. cbn [app].
    change (posts (EvLog (LogInstance inst) :: ?l)) with (posts l).
    apply guarded_posts_bound.
  - rewrite load_run, Hacq. exists (evs0 ++ [EvUnhandled e]).
    cbn [trace emit]. rewrite Htr, <- app_assoc. split; [reflexivity|].
    rewrite posts_app, Hp0. cbn. lia.
  - rewrite load_run, Hacq. exists evs0. split; [exact Htr|].
    rewrite Hp0. cbn. lia.
Qed.

(** X11.  Over any history the worker posts at most one message per load
    command it received. *)
Theorem at_most_one_post_per_load msgs : forall w,
  List.length (posts (trace (worker msgs w)))
  <= List.length (posts (trace w)) + List.length (filter is_load msgs).
Proof.
  induction msgs as [|[env data] msgs IH]; intros w; cbn [worker filter].
  - lia.
  - specialize (IH (deliver env data w)).
    destruct (is_load (env, data)) eqn:Hl.
    + destruct (deliver_extends env data w) as (evs & Htr & Hle).
      rewrite Htr, posts_app, length_app in IH. cbn [List.length]. lia.
    + rewrite (deliver_other env data w Hl) in *. exact IH.
Qed.

Lemma started_deliver env data ph :
  started (phase_deliver env data ph) = started ph || is_load (env, data).
Proof.
  unfold phase_deliver, is_load, acquire_result. cbn [snd].
  destruct (String.eqb (type data) "load"); [|now rewrite orb_false_r].
  destruct ph, (spzwasm env); reflexivity.
Qed.

Lemma started_worker msgs : forall ph,
  started (fold_left (fun ph m => phase_deliver (fst m) (snd m) ph) msgs ph)
  = started ph || existsb is_load msgs.
Proof.
  induction msgs as [|[env data] msgs IH]; intros ph; cbn [fold_left existsb].
  - now rewrite orb_false_r.
  - rewrite IH. cbn [fst snd]. rewrite started_deliver.
    symmetry. apply orb_assoc.
Qed.

Lemma in_phase_started ph w :
  in_phase ph w ->
  spzwasm_calls (trace w) = if started ph then 1 else 0.
Proof. destruct ph; cbn; intros (_ & _ & _ & ->); reflexivity. Qed.

(** X12.  The engine is started lazily and once: over any history the
    worker invokes [spzwasm()] exactly once if the history holds a load
    command, whether the loads fail or not, and never otherwise. *)
Theorem engine_started_with_first_load msgs :
  spzwasm_calls (trace (worker msgs (main world0)))
  = if existsb is_load msgs then 1 else 0.
Proof.
  destruct (worker_phase msgs Fresh (main world0)
              (proj1 in_phase_main) (proj2 in_phase_main)) as [Hph _].
  rewrite (in_phase_started _ _ Hph), started_worker. reflexivity.
Qed.









(** ** Promises handed out once the engine is ready (line 45) *)

Lemma ready_calls_seq n : forall w m,
  instance w = Some m ->
  fst (run_singleton (repeat Call n) w) = seq (List.length (promises w)) n.
Proof.
  induction n as [|n IH]; intros w m Hm; [reflexivity|].
  cbn [repeat run_singleton seq].
  unfold SpzSingleton.getInstance at 1. rewrite Hm.
  specialize (IH (set_promises (promises w ++ [Fulfilled m]) w) m Hm).
  cbn [promises set_promises] in IH.
  rewrite length_app, Nat.add_1_r in IH.
  destruct (run_singleton (repeat Call n) _) as [ps w2].
  cbn [fst] in *. now rewrite IH.
Qed.

(** X14.  Once the engine is ready, [getInstance] no longer hands out
    the shared [loadingPromise]: each caller is given a promise object
    of its own, new at every call. *)
Theorem ready_callers_get_own_promise evs m n :
  let w := snd (run_singleton evs world0) in
  instance w = Some m ->
  let ps := fst (run_singleton (repeat Call n) w) in
  ps = seq (List.length (promises w)) n
  /\ NoDup ps
  /\ forall q, In q ps -> loadingPromise w <> Some q.
Proof.
  intros w Hm ps. subst ps.
  rewrite (ready_calls_seq n w m Hm).
  split; [reflexivity|]. split; [apply seq_NoDup|].
  intros q Hq. apply in_seq in Hq.
  pose proof (run_singleton_phase evs Fresh world0 in_phase_world0) as Hph.
  fold w in Hph.
  rewrite (instance_tells_phase _ _ _ Hph Hm) in Hph.
  destruct Hph as (_ & -> & [k Hp] & _).
  rewrite Hp in Hq. cbn [List.length repeat] in Hq.
  intros [= <-]. lia.
Qed.

Lemma ready_callers_get_own_promise_witness :
  let w := snd (run_singleton [Call; Settles 0 (inr 7)] world0) in
  instance w = Some 7
  /\ fst (run_singleton (repeat Call 3) w) = [1; 2; 3].
Proof.
  cbv zeta. split; [reflexivity|].
  exact (proj1 (ready_callers_get_own_promise
                  [Call; Settles 0 (inr 7)] 7 3 eq_refl)).
Defined.

(** * The page utilities (src/build.sh, lines 47-87) *)

Lemma has_get params name :
  Utils.has params name = true ->
  exists v, Utils.get params name = Some v.
Proof.
  unfold Utils.has, Utils.get.
  induction params as [|kv params IH]; cbn [existsb find]; [discriminate|].
  destruct (String.eqb (fst kv) name); [eauto|exact IH].
Qed.

Lemma toLowerCase_app a b :
  Utils.toLowerCase (a ++ b)%string
  = (Utils.toLowerCase a ++ Utils.toLowerCase b)%string.
Proof.
  induction a as [|c a IH]; cbn [String.append Utils.toLowerCase];
    [reflexivity|now rewrite IH].
Qed.

Lemma startsWith_app sub y : Utils.startsWith (sub ++ y)%string sub = true.
Proof.
  induction sub as [|c sub IH]; cbn [String.append Utils.startsWith];
    [now destruct y|].
  now rewrite Ascii.eqb_refl, IH.
Qed.

Lemma includes_head s sub :
  Utils.startsWith s sub = true -> Utils.includes s sub = true.
Proof. intros H. destruct s; cbn [Utils.includes]; now rewrite H. Qed.

Lemma includes_mid x sub y :
  Utils.includes (x ++ sub ++ y)%string sub = true.
Proof.
  induction x as [|c x IH]; cbn [String.append].
  - apply includes_head, startsWith_app.
  - cbn [Utils.includes]. rewrite IH. apply orb_true_r.
Qed.

Lemma base_url_has_http u :
  Utils.includes (Utils.toLowerCase (Utils.base_url ++ u)%string) "http"
  = true.
Proof.
  rewrite toLowerCase_app.
  replace (Utils.toLowerCase Utils.base_url) with Utils.base_url
    by (vm_compute; reflexivity).
  apply includes_head. reflexivity.
Qed.

(** X15.  [get_url_param] never throws.  Without a [url] parameter it
    returns the empty string; with one, what it returns always contains
    ["http"], whatever the case of the letters: the parameter itself when
    it does, the parameter behind the data-set address when it does
    not. *)
Theorem get_url_param_has_http params :
  match Utils.get_url_param params with
  | Utils.Returns u =>
      if Utils.has params "url"
      then Utils.includes (Utils.toLowerCase u) "http" = true
           /\ exists v, Utils.get params "url" = Some v
                        /\ (u = v \/ u = (Utils.base_url ++ v)%string)
      else u = EmptyString
  | Utils.TypeError => False
  end.
Proof.
  unfold Utils.get_url_param.
  destruct (Utils.has params "url") eqn:Hhas; [|reflexivity].
  destruct (has_get _ _ Hhas) as [v Hv]. rewrite Hv.
  destruct (Utils.includes (Utils.toLowerCase v) "http") eqn:Hin;
    cbn [negb].
  - split; [exact Hin|]. exists v. auto.
  - split; [apply base_url_has_http|]. exists v. auto.
Qed.

(** X16.  What [get_url_param] answers, put back as the [url]
    parameter.  The answer to a query that has a [url] parameter is
    returned as it is: the data-set address is never put in front twice.
    The answer to a query without one is the empty string, and for that
    the data-set address alone comes back. *)
Theorem get_url_param_stable params u rest :
  Utils.get_url_param params = Utils.Returns u ->
  Utils.get_url_param (("url"%string, u) :: rest)
  = Utils.Returns (if Utils.has params "url" then u else Utils.base_url).
Proof.
  intros Hret.
  assert (Hin : Utils.includes (Utils.toLowerCase u) "http"
                = Utils.has params "url").
  { revert Hret. unfold Utils.get_url_param.
    destruct (Utils.has params "url") eqn:Hhas; [|now intros [= <-]].
    destruct (has_get _ _ Hhas) as [v ->].
    destruct (Utils.includes (Utils.toLowerCase v) "http") eqn:Hin;
      cbn [negb]; intros [= <-]; [exact Hin|apply base_url_has_http]. }
  unfold Utils.get_url_param at 1. unfold Utils.has at 1, Utils.get.
  cbn [existsb find fst]. rewrite String.eqb_refl. cbn [orb snd].
  rewrite Hin.
  destruct (Utils.has params "url") eqn:Hhas; cbn [negb]; [reflexivity|].
  revert Hret. unfold Utils.get_url_param. rewrite Hhas.
  now intros [= <-].
Qed.

Lemma get_url_param_stable_witness :
  Utils.get_url_param [("url"%string, "bonsai.spz"%string)]
  = Utils.Returns (Utils.base_url ++ "bonsai.spz")%string
  /\ Utils.get_url_param
       [("url"%string, (Utils.base_url ++ "bonsai.spz")%string)]
     = Utils.Returns (Utils.base_url ++ "bonsai.spz")%string
  /\ Utils.get_url_param [("up"%string, "0,1,0"%string)]
     = Utils.Returns EmptyString
  /\ Utils.get_url_param [("url"%string, EmptyString)]
     = Utils.Returns Utils.base_url.
Proof.
  split; [reflexivity|]. split; [|split; [reflexivity|]].
  - apply (get_url_param_stable [("url"%string, "bonsai.spz"%string)]
             (Utils.base_url ++ "bonsai.spz")%string []).
    reflexivity.
  - apply (get_url_param_stable [("up"%string, "0,1,0"%string)]
             EmptyString []).
    reflexivity.
Defined.

(** X17.  The test of line 51 looks for ["http"] anywhere in the
    parameter and in any case of its letters: a parameter that holds
    such a piece is returned unchanged, not only one that starts with a
    scheme. *)
Theorem url_with_http_anywhere_is_kept a m b rest :
  Utils.toLowerCase m = "http"%string ->
  Utils.get_url_param (("url"%string, (a ++ m ++ b)%string) :: rest)
  = Utils.Returns (a ++ m ++ b)%string.
Proof.
  intros Hm.
  unfold Utils.get_url_param, Utils.has, Utils.get.
  cbn [existsb find fst]. rewrite String.eqb_refl. cbn [orb snd].
  rewrite !toLowerCase_app, Hm, includes_mid. reflexivity.
Qed.

Lemma url_with_http_anywhere_is_kept_witness :
  Utils.toLowerCase "HtTp" = "http"%string
  /\ Utils.get_url_param [("url"%string, "data/my_HtTp_clouds/a.spz"%string)]
     = Utils.Returns "data/my_HtTp_clouds/a.spz"%string.
Proof.
  split; [reflexivity|].
  apply (url_with_http_anywhere_is_kept "data/my_" "HtTp" "_clouds/a.spz" []).
  reflexivity.
Defined.

Lemma length_split s c :
  List.length (Utils.split s c) = S (Utils.occurrences c s).
Proof.
  induction s as [|d s IH]; cbn [Utils.split Utils.occurrences];
    [reflexivity|].
  destruct (Ascii.eqb d c); cbn [List.length Nat.add].
  - now rewrite IH.
  - destruct (Utils.split s c) as [|field fields]; [discriminate IH|].
    exact IH.
Qed.

(** The vector [getVectorParam] answers with is the default or the three
    parsed fields, none of them NaN. *)
Lemma getVectorParam_cases num Number isNaN params name d :
  Utils.getVectorParam num Number isNaN params name d = d
  \/ (List.length (Utils.getVectorParam num Number isNaN params name d) = 3
      /\ existsb isNaN (Utils.getVectorParam num Number isNaN params name d)
         = false
      /\ exists p,
           Utils.get params name = Some p
           /\ Utils.getVectorParam num Number isNaN params name d
              = map Number (Utils.split p ","%char)).
Proof.
  unfold Utils.getVectorParam.
  destruct (Utils.get params name) as [[|c p]|]; [now left| |now left].
  cbv zeta.
  destruct (negb (List.length (map Number (Utils.split (String c p) ","%char))
                  =? 3)%nat
            || existsb isNaN (map Number (Utils.split (String c p) ","%char)))
    eqn:E; [now left|].
  right. apply orb_false_elim in E. destruct E as [El En].
  apply negb_false_iff, Nat.eqb_eq in El. eauto.
Qed.

(** X18.  Whatever the query string holds, [getVectorParam] answers
    with three numbers when the default has three, and with no NaN when
    the default has none; each of the two holds without the other. *)
Theorem getVectorParam_three_numbers num Number isNaN params name d :
  (List.length d = 3 ->
   List.length (Utils.getVectorParam num Number isNaN params name d) = 3)
  /\ (existsb isNaN d = false ->
      existsb isNaN (Utils.getVectorParam num Number isNaN params name d)
      = false).
Proof.
  destruct (getVectorParam_cases num Number isNaN params name d)
    as [->|(H3 & Hn & _)]; auto.
Qed.

Lemma getVectorParam_three_numbers_witness :
  let nan3 := [None; Some 0%Z; Some 5%Z] in
  let two := [Some 0%Z; Some 5%Z] in
  let ask := Utils.getVectorParam (option Z) Utils.sample_Number
               Utils.sample_isNaN [("position"%string, "1,x,3"%string)]
               "position" in
  (List.length nan3 = 3 /\ List.length (ask nan3) = 3)
  /\ (existsb Utils.sample_isNaN two = false
      /\ existsb Utils.sample_isNaN (ask two) = false).
Proof.
  cbv zeta. split; (split; [reflexivity|]).
  - apply (proj1 (getVectorParam_three_numbers (option Z) Utils.sample_Number
                    Utils.sample_isNaN [("position"%string, "1,x,3"%string)]
                    "position" [None; Some 0%Z; Some 5%Z])).
    reflexivity.
  - apply (proj2 (getVectorParam_three_numbers (option Z) Utils.sample_Number
                    Utils.sample_isNaN [("position"%string, "1,x,3"%string)]
                    "position" [Some 0%Z; Some 5%Z])).
    reflexivity.
Defined.

(** X19.  A parameter that does not hold exactly two commas is
    malformed: the default comes back, whatever the fields are. *)
Theorem getVectorParam_wants_two_commas num Number isNaN params name d p :
  Utils.get params name = Some p ->
  Utils.occurrences ","%char p <> 2 ->
  Utils.getVectorParam num Number isNaN params name d = d.
Proof.
  intros Hget Hocc. unfold Utils.getVectorParam. rewrite Hget.
  destruct p as [|c p]; [reflexivity|]. cbv zeta.
  rewrite length_map, length_split.
  destruct (S (Utils.occurrences ","%char (String c p)) =? 3)%nat eqn:E.
  - apply Nat.eqb_eq in E. injection E as E. contradiction.
  - reflexivity.
Qed.

Lemma getVectorParam_wants_two_commas_witness :
  let params := [("target"%string, "1,2,3,"%string)] in
  Utils.get params "target" = Some "1,2,3,"%string
  /\ Utils.occurrences ","%char "1,2,3," <> 2
  /\ Utils.getVectorParam (option Z) Utils.sample_Number Utils.sample_isNaN
       params "target" [Some 0%Z; Some 0%Z; Some 0%Z]
     = [Some 0%Z; Some 0%Z; Some 0%Z].
Proof.
  cbv zeta. split; [reflexivity|].
  assert (H : Utils.occurrences ","%char "1,2,3," <> 2)
    by (vm_compute; discriminate).
  split; [exact H|].
  exact (getVectorParam_wants_two_commas (option Z) Utils.sample_Number
           Utils.sample_isNaN [("target"%string, "1,2,3,"%string)] "target"
           [Some 0%Z; Some 0%Z; Some 0%Z] "1,2,3," eq_refl H).
Defined.

(** X20.  The three getters always answer with three numbers, and never
    with a NaN as long as the literals 0, 1 and 5 are none. *)
Theorem vector_getters_three_numbers num Number isNaN lit params :
  isNaN (lit 0%Z) = false -> isNaN (lit 1%Z) = false ->
  isNaN (lit 5%Z) = false ->
  Forall (fun v => List.length v = 3 /\ existsb isNaN v = false)
    [ Utils.get_position_param num Number isNaN lit params;
      Utils.get_target_param num Number isNaN lit params;
      Utils.get_up_param num Number isNaN lit params ].
Proof.
  intros H0 H1 H5.
  unfold Utils.get_position_param, Utils.get_target_param,
    Utils.get_up_param.
  repeat constructor;
    match goal with
    | |- context [Utils.getVectorParam _ _ _ ?ps ?n ?d] =>
        destruct (getVectorParam_cases num Number isNaN ps n d)
          as [->|(H3 & Hn & _)]
    end;
    try assumption; try reflexivity;
    cbn [existsb]; now rewrite ?H0, ?H1, ?H5.
Qed.

Lemma vector_getters_three_numbers_witness :
  Forall (fun v => List.length v = 3
                   /\ existsb Utils.sample_isNaN v = false)
    [ Utils.get_position_param (option Z) Utils.sample_Number
        Utils.sample_isNaN Some [("position"%string, "1,2"%string)];
      Utils.get_target_param (option Z) Utils.sample_Number
        Utils.sample_isNaN Some [("position"%string, "1,2"%string)];
      Utils.get_up_param (option Z) Utils.sample_Number
        Utils.sample_isNaN Some [("position"%string, "1,2"%string)] ].
Proof.
  apply vector_getters_three_numbers; reflexivity.
Defined.
